(** * MySQLTargetManager.Acquire: target acquisition and locking

    A shallow embedding of [MySQLTargetManager.Acquire] (package
    [mysqltargetmanager]) and of the library functions it calls, followed by
    the properties of the acquisition protocol: row validation, host-prefix
    filtering, shuffling, the minimum-count checks before and after
    [TryLock], and the unlock of a partial lock.

    Conventions.
    - Go strings are byte strings: [string].
    - [uint32], [uint] and [int] values are integers in [Z]; conversions
      write the wrap-around out ([int] and [uint] are 64 bits wide).
    - A [[]byte] is an [option (list N)]: [None] is the nil slice, every
      element is below 256.
    - A [*target.Target] is an allocation address together with the value
      stored there; [Acquire] writes every field of a target before it takes
      its address and never afterwards.
    - Calls to the locker are recorded in a log, in program order. *)

From Stdlib Require Import ZArith NArith String Ascii List Lia Permutation.
From stdpp Require Import base tactics option list strings.

Local Open Scope Z_scope.

(** ** Package [strings] *)

Module strings.

(** [strings.HasPrefix]:
    [len(s) >= len(prefix) && s[0:len(prefix)] == prefix]. *)
Definition HasPrefix (s prefix : string) : bool :=
  (String.length prefix <=? String.length s)%nat
  && String.eqb (String.substring 0 (String.length prefix) s) prefix.

(** [strings.Split(s, sep)] for a separator [sep] of one byte, which is how
    [Acquire] calls it: the substrings of [s] between the occurrences of
    [sep]; a string without [sep] (the empty string too) gives the
    one-element slice [[s]]. *)
Fixpoint Split (s : string) (sep : ascii) : list string :=
  match s with
  | EmptyString => [EmptyString]
  | String c s' =>
      if Ascii.eqb c sep then EmptyString :: Split s' sep
      else match Split s' sep with
           | [] => [String c EmptyString]
           | x :: xs => String c x :: xs
           end
  end.

End strings.

(** ** Package [net] *)

Module net.

(** [net.IP] is a byte slice: [None] is the nil slice, every byte is below
    256. *)
Definition IP : Type := option (list N).

(** [ip == nil]. *)
Definition is_nil (ip : IP) : bool :=
  match ip with
  | None => true
  | Some _ => false
  end.

Definition IPv4len : nat := 4.
Definition IPv6len : nat := 16.

Definition v4InV6Prefix : list N := [0; 0; 0; 0; 0; 0; 0; 0; 0; 0; 255; 255]%N.

(** [net.IPv4(a, b, c, d)]: the 16-byte form of the IPv4 address. *)
Definition IPv4 (a b c d : N) : IP := Some (v4InV6Prefix ++ [a; b; c; d]).

Definition isZeros (p : list N) : bool := forallb (N.eqb 0) p.

(** [IP.To4]: a 4-byte slice is returned as it is, a 16-byte slice with
    the IPv4-in-IPv6 prefix gives its last four bytes, anything else nil. *)
Definition To4 (ip : IP) : IP :=
  match ip with
  | None => None
  | Some p =>
      if (length p =? IPv4len)%nat then Some p
      else if (length p =? IPv6len)%nat
              && isZeros (take 10 p)
              && bool_decide (p !! 10%nat = Some 255%N)
              && bool_decide (p !! 11%nat = Some 255%N)
           then Some (take 4 (drop 12 p))
           else None
  end.

(** [IP.To16]: a 4-byte slice is widened, a 16-byte slice is returned as
    it is, anything else gives nil. *)
Definition To16 (ip : IP) : IP :=
  match ip with
  | None => None
  | Some p =>
      if (length p =? IPv4len)%nat then
        match p with
        | [a; b; c; d] => IPv4 a b c d
        | _ => None
        end
      else if (length p =? IPv6len)%nat then Some p
      else None
  end.

(** *** [net.ParseIP]

    The functions below follow the standard library's parser: decimal and
    hexadecimal fields, dotted IPv4 text, IPv6 text in groups of at most
    four hexadecimal digits with at most one ellipsis and an optional
    trailing dotted IPv4 part. The result of a
    successful parse always has sixteen bytes. *)

Definition big : Z := 0xFFFFFF.

Definition digit (c : ascii) : option Z :=
  let n := Z.of_nat (nat_of_ascii c) in
  if (48 <=? n) && (n <=? 57) then Some (n - 48) else None.

Definition hexdigit (c : ascii) : option Z :=
  let n := Z.of_nat (nat_of_ascii c) in
  if (48 <=? n) && (n <=? 57) then Some (n - 48)
  else if (97 <=? n) && (n <=? 102) then Some (n - 97 + 10)
  else if (65 <=? n) && (n <=? 70) then Some (n - 65 + 10)
  else None.

(** The shared loop of [dtoi] and [xtoi]: the number read so far, the bytes
    consumed and the rest of the string; [None] once the number reaches
    [big]. *)
Fixpoint toi_loop (val : ascii -> option Z) (base : Z)
    (s : string) (n : Z) (i : nat) : option (Z * nat * string) :=
  match s with
  | String c s' =>
      match val c with
      | Some d =>
          let n' := n * base + d in
          if big <=? n' then None else toi_loop val base s' n' (S i)
      | None => Some (n, i, s)
      end
  | EmptyString => Some (n, i, s)
  end.

Definition toi (val : ascii -> option Z) (base : Z) (s : string)
    : option (Z * nat * string) :=
  match toi_loop val base s 0 0%nat with
  | Some (n, i, rest) => if (i =? 0)%nat then None else Some (n, i, rest)
  | None => None
  end.

Definition dtoi : string -> option (Z * nat * string) := toi digit 10.
Definition xtoi : string -> option (Z * nat * string) := toi hexdigit 16.

Definition dot : ascii := ascii_of_nat 46.
Definition colon : ascii := ascii_of_nat 58.
Definition zero_char : ascii := ascii_of_nat 48.

Definition starts_with (c : ascii) (s : string) : bool :=
  match s with
  | String d _ => Ascii.eqb c d
  | EmptyString => false
  end.

(** The [k] remaining fields of [parseIPv4]'s loop. *)
Fixpoint parseIPv4_fields (k : nat) (first : bool) (s : string)
    : option (list N * string) :=
  match k with
  | O => Some ([], s)
  | S k' =>
      match s with
      | EmptyString => None
      | String c s' =>
          let field :=
            if first then Some s
            else if Ascii.eqb c dot then Some s' else None in
          match field with
          | None => None
          | Some s1 =>
              match dtoi s1 with
              | None => None
              | Some (n, c1, rest) =>
                  if 255 <? n then None
                  else if (1 <? c1)%nat && starts_with zero_char s1 then None
                  else
                    match parseIPv4_fields k' false rest with
                    | Some (p, rest') => Some (Z.to_N n :: p, rest')
                    | None => None
                    end
              end
          end
      end
  end.

Definition parseIPv4 (s : string) : IP :=
  match parseIPv4_fields IPv4len true s with
  | Some ([a; b; c; d], EmptyString) => IPv4 a b c d
  | _ => None
  end.

(** The loop of [parseIPv6]: [acc] holds the bytes [ip[0:i]] written so
    far, [ellipsis] the position of the ellipsis if one was seen. The
    result is the state after the loop: bytes, ellipsis and unread text. *)
Fixpoint parseIPv6_loop (fuel : nat) (acc : list N)
    (ellipsis : option nat) (s : string)
    : option (list N * option nat * string) :=
  match fuel with
  | O => Some (acc, ellipsis, s)
  | S fuel' =>
      if (IPv6len <=? length acc)%nat then Some (acc, ellipsis, s)
      else
        match xtoi s with
        | None => None
        | Some (n, c, rest) =>
            if (4 <? c)%nat then None
            else if 0xFFFF <? n then None
            else if starts_with dot rest then
              if negb (bool_decide (is_Some ellipsis))
                 && negb (length acc =? IPv6len - IPv4len)%nat then None
              else if (IPv6len <? length acc + IPv4len)%nat then None
              else
                match parseIPv4 s with
                | None => None
                | Some ip4 =>
                    Some (acc ++ take 4 (drop 12 ip4), ellipsis, EmptyString)
                end
            else
              let acc' :=
                acc ++ [Z.to_N (Z.shiftr n 8); Z.to_N (Z.land n 255)] in
              match rest with
              | EmptyString => Some (acc', ellipsis, EmptyString)
              | String c0 EmptyString => None
              | String c0 (String c1 s2 as s1) =>
                  if negb (Ascii.eqb c0 colon) then None
                  else if Ascii.eqb c1 colon then
                    match ellipsis with
                    | Some _ => None
                    | None =>
                        match s2 with
                        | EmptyString =>
                            Some (acc', Some (length acc'), EmptyString)
                        | _ =>
                            parseIPv6_loop fuel' acc' (Some (length acc')) s2
                        end
                    end
                  else parseIPv6_loop fuel' acc' ellipsis s1
              end
        end
  end.

Definition parseIPv6 (s : string) : IP :=
  let finish (st : list N * option nat * string) : IP :=
    let '(acc, ellipsis, rest) := st in
    match rest with
    | String _ _ => None
    | EmptyString =>
        if (length acc <? IPv6len)%nat then
          match ellipsis with
          | None => None
          | Some e =>
              Some (take e acc ++ replicate (IPv6len - length acc) 0%N
                      ++ drop e acc)
          end
        else match ellipsis with
             | Some _ => None
             | None => Some acc
             end
    end in
  match s with
  | String c0 (String c1 s2) =>
      if Ascii.eqb c0 colon && Ascii.eqb c1 colon then
        match s2 with
        | EmptyString => Some (replicate IPv6len 0%N)
        | _ => parseIPv6_loop 9 [] (Some 0%nat) s2 ≫= finish
        end
      else parseIPv6_loop 9 [] None s ≫= finish
  | _ => parseIPv6_loop 9 [] None s ≫= finish
  end.

(** [net.ParseIP]: the first ['.'] or [':'] of the text selects the
    parser; a text with neither is not an address. *)
Fixpoint ParseIP_scan (whole s : string) : IP :=
  match s with
  | EmptyString => None
  | String c s' =>
      if Ascii.eqb c dot then parseIPv4 whole
      else if Ascii.eqb c colon then parseIPv6 whole
      else ParseIP_scan whole s'
  end.

Definition ParseIP (s : string) : IP := ParseIP_scan s s.

End net.

(** ** Package [target] *)

Module target.

(** [target.Target], with the fields [Acquire] writes. *)
Record Target : Type := mkTarget {
  ID : string;
  FQDN : string;
  PrimaryIPv4 : net.IP;
  PrimaryIPv6 : net.IP;
}.

(** The zero value of [Target] ([var t target.Target]). *)
Definition zero : Target :=
  {| ID := EmptyString; FQDN := EmptyString;
     PrimaryIPv4 := None; PrimaryIPv6 := None |}.

(** Assignments to the fields of a target. *)
Definition set_ID (v : string) (t : Target) : Target :=
  {| ID := v; FQDN := FQDN t;
     PrimaryIPv4 := PrimaryIPv4 t; PrimaryIPv6 := PrimaryIPv6 t |}.

Definition set_FQDN (v : string) (t : Target) : Target :=
  {| ID := ID t; FQDN := v;
     PrimaryIPv4 := PrimaryIPv4 t; PrimaryIPv6 := PrimaryIPv6 t |}.

Definition set_PrimaryIPv4 (v : net.IP) (t : Target) : Target :=
  {| ID := ID t; FQDN := FQDN t;
     PrimaryIPv4 := v; PrimaryIPv6 := PrimaryIPv6 t |}.

Definition set_PrimaryIPv6 (v : net.IP) (t : Target) : Target :=
  {| ID := ID t; FQDN := FQDN t;
     PrimaryIPv4 := PrimaryIPv4 t; PrimaryIPv6 := v |}.

(** A [*Target]: where the target was allocated and what is stored there. *)
Record ptr : Type := Ptr { addr : nat; deref : Target }.

(** A job identifier ([types.JobID]) and a duration ([time.Duration]). *)
Definition JobID : Type := Z.
Definition Duration : Type := Z.

(** An [error] value produced outside [Acquire]: its message. *)
Definition error : Type := string.

(** [target.Locker], the two methods [Acquire] calls, over a locker
    whose state has type [L]: each method returns its Go results and the
    state the locker is left in. *)
Record Locker (L : Type) : Type := {
  TryLock : JobID -> Duration -> list ptr -> Z -> L ->
            (list string * option error) * L;
  Unlock : JobID -> list ptr -> L -> option error * L;
}.
Arguments TryLock {L} _ _ _ _ _ _.
Arguments Unlock {L} _ _ _ _.

(** Modelled from the spec: [target.FilterTargets], a function of package
    [pkg/target] that [Acquire] calls. The locker's reported identifiers
    are mapped back to the original [Target] entities, one candidate per
    identifier; an identifier that is not found among the candidates is an
    error, here [None]. *)
Fixpoint FilterTargets (targetIDs : list string) (targets : list ptr)
    : option (list ptr) :=
  match targetIDs with
  | [] => Some []
  | id :: ids =>
      match List.find (fun p => String.eqb (ID (deref p)) id) targets with
      | None => None
      | Some p =>
          match FilterTargets ids targets with
          | None => None
          | Some ps => Some (p :: ps)
          end
      end
  end.

End target.

(** ** Package [rand] *)

Module rand.

(** [rand.Shuffle(n, swap)] over a state [A] that [swap] updates, [None]
    when [swap] panics. The index [i] runs from [n - 1] down to [1] and
    is swapped with a [j] drawn from [0 .. i]; [src i] is the raw number
    the source yields for that draw, reduced modulo [i + 1]. *)
Fixpoint Shuffle_from {A : Type} (src : nat -> nat) (i : nat)
    (swap : nat -> nat -> A -> option A) (a : A) : option A :=
  match i with
  | O => Some a
  | S i' =>
      match swap i (src i mod (i + 1))%nat a with
      | Some a' => Shuffle_from src i' swap a'
      | None => None
      end
  end.

Definition Shuffle {A : Type} (src : nat -> nat) (n : nat)
    (swap : nat -> nat -> A -> option A) (a : A) : option A :=
  Shuffle_from src (n - 1)%nat swap a.

End rand.

(** ** Package [mysqltargetmanager] *)

(** Integer conversions. *)
Definition uint32 (z : Z) : Z := z mod 2 ^ 32.
Definition uint (z : Z) : Z := z mod 2 ^ 64.
Definition int (z : Z) : Z := (z + 2 ^ 63) mod 2 ^ 64 - 2 ^ 63.

(** [len] of a slice, as an [int]. *)
Definition len {A : Type} (l : list A) : Z := Z.of_nat (length l).

Record AcquireParameters : Type := {
  MinNumberDevices : Z;
  MaxNumberDevices : Z;
  HostPrefixes : list string;
  Shuffle : bool;
}.

(** The fields are [uint32] values. *)
Definition in_uint32 (z : Z) : Prop := 0 <= z < 2 ^ 32.

Record mysqltable : Type := {
  ID : Z;
  hostid : string;
  FQDN : string;
  IPv4 : string;
  IPv6 : string;
}.

(** The [parameters interface{}] argument: an [AcquireParameters] value or a
    value of another type, of which only the type's name matters. *)
Inductive interface : Type :=
| OfAcquireParameters (ap : AcquireParameters)
| OfOtherType (typeName : string).

(** The errors [Acquire] builds, one constructor per message, with the
    arguments of the format string. *)
Inductive error : Type :=
| ErrExpects (got : string)
    (* Acquire expects %T object, got %T *)
| ErrScan
    (* scan column from table waws not successful *)
| ErrEmptyHostID
    (* invalid empty string for host ID *)
| ErrInvalidIPv4 (raw : string)
    (* invalid non-empty IPv4 address "%s" *)
| ErrInvalidIPv6 (raw : string)
    (* invalid non-empty IPv6 address "%s" *)
| ErrNotEnoughHosts (want got : Z)
    (* not enough hosts found in DB table 'targetmanager', want %d, got %d *)
| ErrFailedToLock (cause : target.error)
    (* failed to lock targets: %w *)
| ErrLockedNotFound
    (* can not find locked targets in hosts *)
| ErrCantUnlock
    (* can't unlock targets *)
| ErrCantLockEnough.
    (* can't lock enough targets *)

(** What the database gives: [sql.Open] fails, or [db.Query] fails, or the
    query yields rows, each of which [table.Scan] reads into [data] or
    rejects. *)
Inductive scan : Type :=
| ScanOK (data : mysqltable)
| ScanErr.

Inductive database : Type :=
| OpenFails
| QueryFails
| Table (rows : list scan).

(** How a piece of [Acquire] ends: it falls through with a value, returns
    [nil] and an error, or panics. *)
Inductive flow (A : Type) : Type :=
| Next (a : A)
| Return (e : error)
| Panic.
Arguments Next {A} a.
Arguments Return {A} e.
Arguments Panic {A}.

(** The [hosts] slice and the number of targets allocated so far. *)
Record loop_state : Type := {
  hosts : list target.ptr;
  nalloc : nat;
}.

Definition init : loop_state := {| hosts := []; nalloc := 0 |}.

(** A call to the locker, as [Acquire] issued it. *)
Inductive call : Type :=
| CallTryLock (jobID : target.JobID) (timeout : target.Duration)
    (targets : list target.ptr) (limit : Z)
| CallUnlock (jobID : target.JobID) (targets : list target.ptr).

(** The locker's state, the log of calls, and the receiver's field
    [tf.hosts] ([None] is the nil slice). *)
Record world (L : Type) : Type := {
  locker_state : L;
  calls : list call;
  tf_hosts : option (list target.ptr);
}.
Arguments locker_state {L} _.
Arguments calls {L} _.
Arguments tf_hosts {L} _.

(** The results of a call to [Acquire]: the two values it returns, the
    first one [None] for the nil slice, or a panic. *)
Inductive outcome : Type :=
| Returned (targets : option (list target.ptr)) (err : option error)
| Panicked.

Definition is_empty (s : string) : bool := String.eqb s EmptyString.

(** The row has no data: [hostid], [FQDN], [IPv4] and [IPv6] are all empty. *)
Definition no_data (data : mysqltable) : bool :=
  is_empty (hostid data) && is_empty (FQDN data)
  && is_empty (IPv4 data) && is_empty (IPv6 data).

(** The swap closure passed to [rand.Shuffle]:
    [hosts[i], hosts[j] = hosts[j], hosts[i]]; an index out of range
    panics. *)
Definition swap (i j : nat) (hs : list target.ptr) : option (list target.ptr) :=
  match hs !! j, hs !! i with
  | Some hj, Some hi => Some (<[j := hi]> (<[i := hj]> hs))
  | _, _ => None
  end.

(** The loop over [HostPrefixes]: one append for every prefix that
    [firstComponent] starts with. *)
Fixpoint range_prefixes (firstComponent : string) (prefixes : list string)
    (p : target.ptr) (hs : list target.ptr) : list target.ptr :=
  match prefixes with
  | [] => hs
  | hp :: prefixes' =>
      range_prefixes firstComponent prefixes' p
        (if strings.HasPrefix firstComponent hp then hs ++ [p] else hs)
  end.

Section Acquire.

(** [net.ParseIP]. *)
Variable ParseIP : string -> net.IP.

(** The raw numbers of the random source, by loop index of
    [rand.Shuffle]. *)
Variable src : nat -> nat.

(** The locker passed as [tl]. *)
Context {L : Type} (tl : target.Locker L).

(** From the test of [data.hostid] to the test of [t.PrimaryIPv6]: the
    target [t] of a row with data, or the error the row is refused with. *)
Definition fill (data : mysqltable) : error + target.Target :=
  if is_empty (hostid data) then inl ErrEmptyHostID
  else
    let t := target.zero in
    let t := target.set_ID (hostid data) t in
    let t :=
      if negb (is_empty (FQDN data)) then target.set_FQDN (FQDN data) t
      else t in
    let after_v4 :=
      if negb (is_empty (IPv4 data)) then
        let t := target.set_PrimaryIPv4 (ParseIP (IPv4 data)) t in
        if net.is_nil (target.PrimaryIPv4 t)
           || net.is_nil (net.To4 (target.PrimaryIPv4 t))
        then inl (ErrInvalidIPv4 (IPv4 data))
        else inr t
      else inr t in
    match after_v4 with
    | inl e => inl e
    | inr t =>
        if negb (is_empty (IPv6 data)) then
          let t := target.set_PrimaryIPv6 (ParseIP (IPv6 data)) t in
          if net.is_nil (target.PrimaryIPv6 t)
             || net.is_nil (net.To16 (target.PrimaryIPv6 t))
          then inl (ErrInvalidIPv6 (IPv6 data))
          else inr t
        else inr t
    end.

(** The end of the loop body: [&t] is appended once when there are no
    prefixes, otherwise once per matching prefix if the target has a
    [FQDN], otherwise not at all. *)
Definition collect (ap : AcquireParameters) (p : target.ptr)
    (hs : list target.ptr) : flow (list target.ptr) :=
  if (length (HostPrefixes ap) =? 0)%nat then Next (hs ++ [p])
  else if negb (is_empty (target.FQDN (target.deref p))) then
    match strings.Split (target.FQDN (target.deref p)) net.dot with
    | [] => Panic
    | firstComponent :: _ =>
        Next (range_prefixes firstComponent (HostPrefixes ap) p hs)
    end
  else Next hs.

(** The body of [for table.Next()]. *)
Definition body (ap : AcquireParameters) (st : loop_state) (r : scan)
    : flow loop_state :=
  match r with
  | ScanErr => Return ErrScan
  | ScanOK data =>
      if no_data data then Next st
      else
        match fill data with
        | inl e => Return e
        | inr t =>
            match collect ap (target.Ptr (nalloc st) t) (hosts st) with
            | Next hs => Next {| hosts := hs; nalloc := S (nalloc st) |}
            | Return e => Return e
            | Panic => Panic
            end
        end
  end.

Fixpoint rows_loop (ap : AcquireParameters) (st : loop_state)
    (rows : list scan) : flow loop_state :=
  match rows with
  | [] => Next st
  | r :: rows' =>
      match body ap st r with
      | Next st' => rows_loop ap st' rows'
      | Return e => Return e
      | Panic => Panic
      end
  end.

(** [sql.Open] and [db.Query]: an error is logged and the nil handle is
    used all the same, which panics; otherwise the rows are read. *)
Definition load (ap : AcquireParameters) (db : database) : flow loop_state :=
  match db with
  | OpenFails => Panic
  | QueryFails => Panic
  | Table rows => rows_loop ap init rows
  end.

Definition log_call (c : call) (s : L) (w : world L) : world L :=
  {| locker_state := s; calls := calls w ++ [c]; tf_hosts := tf_hosts w |}.

(** From [TryLock] to the end of [Acquire]. *)
Definition lock (ap : AcquireParameters) (jobID : target.JobID)
    (timeout : target.Duration) (hs : list target.ptr) (w : world L)
    : outcome * world L :=
  let limit := uint (MaxNumberDevices ap) in
  let '((lockedString, err), s1) :=
    target.TryLock tl jobID timeout hs limit (locker_state w) in
  let w1 := log_call (CallTryLock jobID timeout hs limit) s1 w in
  match err with
  | Some e => (Returned None (Some (ErrFailedToLock e)), w1)
  | None =>
      match target.FilterTargets lockedString hs with
      | None => (Returned None (Some ErrLockedNotFound), w1)
      | Some locked =>
          if int (MinNumberDevices ap) <=? len locked then
            (Returned (Some locked) None,
             {| locker_state := locker_state w1; calls := calls w1;
                tf_hosts := Some locked |})
          else if 0 <? len locked then
            let '(uerr, s2) := target.Unlock tl jobID locked s1 in
            let w2 := log_call (CallUnlock jobID locked) s2 w1 in
            match uerr with
            | Some _ => (Returned None (Some ErrCantUnlock), w2)
            | None => (Returned None (Some ErrCantLockEnough), w2)
            end
          else (Returned None (Some ErrCantLockEnough), w1)
      end
  end.

(** [rand.Shuffle(len(hosts), swap)] when [Shuffle] is set. *)
Definition shuffle (ap : AcquireParameters) (hs : list target.ptr)
    : option (list target.ptr) :=
  if Shuffle ap then rand.Shuffle src (length hs) swap hs else Some hs.

(** [MySQLTargetManager.Acquire]. *)
Definition Acquire (db : database) (jobID : target.JobID)
    (timeout : target.Duration) (parameters : interface) (w : world L)
    : outcome * world L :=
  match parameters with
  | OfOtherType ty => (Returned None (Some (ErrExpects ty)), w)
  | OfAcquireParameters ap =>
      match load ap db with
      | Panic => (Panicked, w)
      | Return e => (Returned None (Some e), w)
      | Next st =>
          if uint32 (len (hosts st)) <? MinNumberDevices ap then
            (Returned None
               (Some (ErrNotEnoughHosts (MinNumberDevices ap) (len (hosts st)))),
             w)
          else
            match shuffle ap (hosts st) with
            | None => (Panicked, w)
            | Some hs => lock ap jobID timeout hs w
            end
      end
  end.

End Acquire.

(** ** Vocabulary of the properties *)

(** [sep] does not occur in [s]. *)
Fixpoint free_of (sep : ascii) (s : string) : bool :=
  match s with
  | EmptyString => true
  | String c s' => negb (Ascii.eqb c sep) && free_of sep s'
  end.

(** [x] is the text of [s] up to its first [sep], or all of [s] when [sep]
    does not occur. *)
Definition first_label (sep : ascii) (x s : string) : Prop :=
  free_of sep x = true ∧ (s = x ∨ ∃ r, s = x +:+ String sep r).

(** The prefixes, in list order, that [label] starts with. *)
Definition matching (label : string) (prefixes : list string) : list string :=
  List.filter (strings.HasPrefix label) prefixes.

(** The entries of a slice of pointers that point to address [a]. *)
Definition pointing_to (a : nat) (hs : list target.ptr) : list target.ptr :=
  List.filter (fun q => (target.addr q =? a)%nat) hs.

(** The number of [TryLock] calls in a log. *)
Definition trylock_count (cs : list call) : nat :=
  length (List.filter
            (fun c => match c with CallTryLock _ _ _ _ => true | _ => false end)
            cs).

(** The number of [Unlock] calls in a log. *)
Definition unlock_count (cs : list call) : nat :=
  length (List.filter
            (fun c => match c with CallUnlock _ _ => true | _ => false end)
            cs).

(** The elements of a returned slice; the nil slice has none. *)
Definition elements {A : Type} (s : option (list A)) : list A :=
  match s with
  | Some l => l
  | None => []
  end.

(** The locker keeps to the limit it is given: [TryLock] never reports more
    identifiers than [limit]. *)
Definition honours_limit {L : Type} (tl : target.Locker L) : Prop :=
  ∀ jobID timeout hs limit s,
    0 <= limit →
    len (fst (fst (target.TryLock tl jobID timeout hs limit s))) <= limit.

(** ** Test doubles and sample tables *)

Module double.

(** A locker that follows a script: [TryLock] reports the identifiers
    [grant] together with [lock_err], [Unlock] reports [unlock_err]. It
    keeps no state. *)
Record script : Type := {
  grant : list string;
  lock_err : option target.error;
  unlock_err : option target.error;
}.

Definition scripted (sc : script) : target.Locker unit :=
  {| target.TryLock := fun _ _ _ _ s => ((grant sc, lock_err sc), s);
     target.Unlock := fun _ _ s => (unlock_err sc, s) |}.

(** A locker that grants the first [limit] candidates and lets go of
    them without error. *)
Definition greedy : target.Locker unit :=
  {| target.TryLock := fun _ _ hs limit s =>
       ((map (fun p => target.ID (target.deref p)) (take (Z.to_nat limit) hs),
         None), s);
     target.Unlock := fun _ _ s => (None, s) |}.

Definition row (id name v4 v6 : string) : scan :=
  ScanOK {| ID := 0; hostid := id; FQDN := name; IPv4 := v4; IPv6 := v6 |}.

Definition params (lo hi : Z) (prefixes : list string) (sh : bool)
    : AcquireParameters :=
  {| MinNumberDevices := lo; MaxNumberDevices := hi;
     HostPrefixes := prefixes; Shuffle := sh |}.

Definition fresh : world unit :=
  {| locker_state := tt; calls := []; tf_hosts := None |}.

(** A pointer to a target without addresses. *)
Definition host (a : nat) (id name : string) : target.ptr :=
  target.Ptr a {| target.ID := id; target.FQDN := name;
                  target.PrimaryIPv4 := None; target.PrimaryIPv6 := None |}.

Definition web01 : scan := row "h1" "web01.example.com" EmptyString EmptyString.
Definition db01 : scan := row "h2" "db01.example.com" EmptyString EmptyString.
Definition unnamed : scan := row "h3" EmptyString EmptyString EmptyString.

Definition three_hosts : list scan := [web01; db01; unnamed].

(** The numbers a random source may yield. *)
Definition src0 (i : nat) : nat := (7 * i + 3)%nat.

(** One call of [Acquire] on a table, for job 7 with a timeout of 60. *)
Definition run {L : Type} (tl : target.Locker L) (rows : list scan)
    (ap : AcquireParameters) (w : world L) : outcome * world L :=
  Acquire net.ParseIP src0 tl (Table rows) 7 60 (OfAcquireParameters ap) w.

(** The state the loop over [rows] ends in when it ends normally. *)
Definition loaded (ap : AcquireParameters) (rows : list scan) : loop_state :=
  match rows_loop net.ParseIP ap init rows with
  | Next st => st
  | _ => init
  end.

End double.

(** ** The rest of package [mysqltargetmanager] *)

(** The rows that carry data, in table order. *)
Fixpoint data_rows (rows : list scan) : list mysqltable :=
  match rows with
  | [] => []
  | ScanOK data :: rows' =>
      if no_data data then data_rows rows' else data :: data_rows rows'
  | ScanErr :: rows' => data_rows rows'
  end.

(** The errors with which the loop over the rows can end, for a table
    [rows]: an address error carries the text of a field of some row. *)
Definition load_error (rows : list scan) (e : error) : Prop :=
  e = ErrScan ∨ e = ErrEmptyHostID
  ∨ (∃ data, In (ScanOK data) rows ∧ IPv4 data ≠ EmptyString
             ∧ e = ErrInvalidIPv4 (IPv4 data))
  ∨ (∃ data, In (ScanOK data) rows ∧ IPv6 data ≠ EmptyString
             ∧ e = ErrInvalidIPv6 (IPv6 data)).

(** A target as the loop leaves it: an identifier, and addresses that are
    nil or pass the test the loop makes on them. *)
Definition well_formed (t : target.Target) : Prop :=
  target.ID t ≠ EmptyString
  ∧ (target.PrimaryIPv4 t = None
     ∨ net.is_nil (net.To4 (target.PrimaryIPv4 t)) = false)
  ∧ (target.PrimaryIPv6 t = None
     ∨ net.is_nil (net.To16 (target.PrimaryIPv6 t)) = false).

(** The target's name is not empty and its first label starts with one of
    the prefixes. *)
Definition passes_filter (prefixes : list string) (t : target.Target) : Prop :=
  target.FQDN t ≠ EmptyString
  ∧ ∃ label hp r, first_label net.dot label (target.FQDN t)
      ∧ In hp prefixes ∧ label = hp +:+ r.

(** *** Validation of the parameters *)

(** The error of a validation method: the one [json.Unmarshal] returned,
    passed on as it is, or the one the method builds. *)
Inductive validation_error : Type :=
| ErrUnmarshal (cause : target.error)
| ErrEmptyHostPrefix.
    (* host prefix cannot be empty string if specified *)

(** The dynamic type of a [ReleaseParameters] value, as [%T] prints it. *)
Definition ReleaseParametersType : string :=
  "mysqltargetmanager.ReleaseParameters".

Section Validate.

(** [strings.TrimSpace]. *)
Variable TrimSpace : string -> string.

(** [json.Unmarshal(params, &ap)] for [var ap AcquireParameters], and
    [json.Unmarshal(params, &rp)] for [var rp ReleaseParameters]. *)
Variable UnmarshalAcquire : string -> target.error + AcquireParameters.
Variable UnmarshalRelease : string -> option target.error.

(** [for idx, hp := range ap.HostPrefixes], with [n] elements left from
    index [idx] on: the element is read, trimmed, refused if it is empty
    and otherwise written back in place. [None] is the early return. *)
Fixpoint range_trim (n idx : nat) (prefixes : list string)
    : option (list string) :=
  match n with
  | O => Some prefixes
  | S n' =>
      match prefixes !! idx with
      | None => Some prefixes
      | Some hp =>
          let hp := TrimSpace hp in
          if is_empty hp then None
          else range_trim n' (S idx) (<[idx := hp]> prefixes)
      end
  end.

(** [MySQLTargetManager.ValidateAcquireParameters]. *)
Definition ValidateAcquireParameters (params : string)
    : option interface * option validation_error :=
  match UnmarshalAcquire params with
  | inl err => (None, Some (ErrUnmarshal err))
  | inr ap =>
      match range_trim (length (HostPrefixes ap)) 0 (HostPrefixes ap) with
      | None => (None, Some ErrEmptyHostPrefix)
      | Some prefixes =>
          (Some (OfAcquireParameters
                   {| MinNumberDevices := MinNumberDevices ap;
                      MaxNumberDevices := MaxNumberDevices ap;
                      HostPrefixes := prefixes;
                      Shuffle := Shuffle ap |}),
           None)
      end
  end.

(** [MySQLTargetManager.ValidateReleaseParameters]. *)
Definition ValidateReleaseParameters (params : string)
    : option interface * option validation_error :=
  match UnmarshalRelease params with
  | Some err => (None, Some (ErrUnmarshal err))
  | None => (Some (OfOtherType ReleaseParametersType), None)
  end.

End Validate.

(** White space of one byte: tab, line feed, vertical tab, form feed,
    carriage return and space. *)
Definition ascii_space (c : ascii) : bool :=
  let n := nat_of_ascii c in
  (n =? 32)%nat || ((9 <=? n)%nat && (n <=? 13)%nat).

(** [strings.TrimSpace] on strings of ASCII bytes: the white space at both
    ends is cut off. *)
Fixpoint trim_left (s : string) : string :=
  match s with
  | String c s' => if ascii_space c then trim_left s' else s
  | EmptyString => EmptyString
  end.

Fixpoint trim_right (s : string) : string :=
  match s with
  | EmptyString => EmptyString
  | String c s' =>
      match trim_right s' with
      | EmptyString =>
          if ascii_space c then EmptyString else String c EmptyString
      | r => String c r
      end
  end.

Definition trim_ascii (s : string) : string := trim_right (trim_left s).

(** A decoder for the samples: the text [bad] does not decode, any other
    text decodes to [ap]. *)
Definition decode_to (ap : AcquireParameters) (params : string)
    : target.error + AcquireParameters :=
  if String.eqb params "bad" then inl "unexpected end of JSON input"
  else inr ap.

(** ** Package [postdone] *)

Module postdone.

(** The name of the reporter. *)
Definition Name : string := "postdone".

Record FinalParameters : Type := {
  ApiURI : string;
}.

(** A value passed or returned as [interface{}]: final parameters, a
    string, or a value of another type. *)
Inductive interface : Type :=
| OfFinalParameters (fp : FinalParameters)
| OfString (s : string)
| OfOtherType (typeName : string).

(** A line written to the package's logger: its level, its format, and the
    status code for the one format that has an argument. *)
Inductive level : Type :=
| InfoLevel
| ErrorLevel.

Record line : Type := Line {
  lvl : level;
  format : string;
  code : option Z;
}.

(** The arguments of a call of [http.Post], and the response to it as far
    as the reporter looks at it. *)
Record request : Type := {
  url : string;
  contentType : string;
  body : string;
}.

Record response : Type := {
  StatusCode : Z;
}.

(** The log written and the calls of [http.Post] made so far, in order.
    Whether a call puts a request on the network is up to [http.Post]. *)
Record world : Type := {
  logged : list line;
  posted : list request;
}.

Definition write (l : line) (w : world) : world :=
  {| logged := logged w ++ [l]; posted := posted w |}.

Definition call_Post (r : request) (w : world) : world :=
  {| logged := logged w; posted := posted w ++ [r] |}.

(** The three results of a report, or a panic. *)
Inductive outcome : Type :=
| Reported (ok : bool) (report : interface) (err : option target.error)
| Panicked.

(** The line logged for a status code. *)
Definition status_line (statuscode : Z) : line :=
  if statuscode =? 200 then
    Line InfoLevel "HTTP Post was successfull: OK" None
  else if statuscode =? 400 then
    Line ErrorLevel "HTTP Post was not successfull: Bad Request" None
  else if statuscode =? 401 then
    Line ErrorLevel "HTTP Post was not successfull: Unauthorized" None
  else if statuscode =? 405 then
    Line ErrorLevel "HTTP Post was not successfull: Method Not Allowed" None
  else if statuscode =? 500 then
    Line ErrorLevel "HTTP Post was not successfull: Internal Server Error" None
  else
    Line ErrorLevel "HTTP Post was not successfull with statuscode: %v \n"
      (Some statuscode).

Section Reporter.

(** [json.Unmarshal(params, &fp)] for [var fp FinalParameters]. *)
Variable Unmarshal : string -> target.error + FinalParameters.

(** [url.ParseRequestURI], of which only the error is used. *)
Variable ParseRequestURI : string -> option target.error.

(** [json.Marshal] of a [map[string]string], given as its entries. *)
Variable Marshal : list (string * string) -> string * option target.error.

(** [http.Post]: the response or the error. *)
Variable Post : request -> target.error + response.

(** [postdone.ValidateRunParameters]. *)
Definition ValidateRunParameters (params : string)
    : option interface * option target.error :=
  (Some (OfString EmptyString), None).

(** [postdone.ValidateFinalParameters]. *)
Definition ValidateFinalParameters (params : string) (w : world)
    : (option interface * option target.error) * world :=
  match Unmarshal params with
  | inl err => ((None, Some err), w)
  | inr fp =>
      match ParseRequestURI (ApiURI fp) with
      | Some err =>
          ((Some (OfFinalParameters fp), Some err),
           write (Line ErrorLevel "ApiURI is not formatted right" None) w)
      | None => ((Some (OfFinalParameters fp), None), w)
      end
  end.

(** [postdone.RunReport]. *)
Definition RunReport (parameters : interface) (w : world) : outcome * world :=
  (Reported true (OfString "I did nothing") None, w).

(** The arguments of [http.Post] for the parameters [fp]: [ApiURI], the
    JSON content type and the marshalled status. *)
Definition request_for (fp : FinalParameters) : request :=
  {| url := ApiURI fp; contentType := "application/json";
     body := fst (Marshal [("status", "iamdone")]) |}.

(** [postdone.FinalReport]. *)
Definition FinalReport (parameters : interface) (w : world) : outcome * world :=
  match parameters with
  | OfFinalParameters fp =>
      let data := [("status", "iamdone")] in
      let '(json_data, err) := Marshal data in
      let w :=
        match err with
        | Some _ =>
            write (Line ErrorLevel "Could not parse data to json format." None) w
        | None => w
        end in
      let r := {| url := ApiURI fp; contentType := "application/json";
                  body := json_data |} in
      let w := call_Post r w in
      match Post r with
      | inl _ =>
          (Reported false (OfString EmptyString) None,
           write (Line ErrorLevel "Could not post data to API." None) w)
      | inr resp =>
          (Reported true (OfString EmptyString) None,
           write (status_line (StatusCode resp)) w)
      end
  | _ => (Panicked, w)
  end.

End Reporter.

End postdone.

(** ** Command [contest] *)

Module main.

Definition defaultDBURI : string :=
  "contest:contest@tcp(localhost:3306)/contest?parseTime=true".
Definition defaultTargetLocker : string := "MySQL:%dbURI%".

Definition percent : ascii := ascii_of_nat 37.

(** [strings.Replace(s, old, new, -1)] for a non-empty [old], which is how
    [expandArgument] calls it: the occurrences of [old] in [s] are found
    from left to right, without overlap, and each is replaced by [new].
    [skip] counts the bytes of a replaced occurrence still to pass over. *)
Fixpoint Replace_from (skip : nat) (s old new : string) : string :=
  match s with
  | EmptyString => EmptyString
  | String c s' =>
      match skip with
      | S skip' => Replace_from skip' s' old new
      | O =>
          if strings.HasPrefix s old then
            new +:+ Replace_from (String.length old - 1) s' old new
          else String c (Replace_from 0 s' old new)
      end
  end.

Definition Replace (s old new : string) : string := Replace_from 0 s old new.

(** [strings.SplitN(s, sep, 2)] for a separator of one byte: [s] is cut at
    its first [sep], if it has one. *)
Fixpoint cut (s : string) (sep : ascii) : option (string * string) :=
  match s with
  | EmptyString => None
  | String c s' =>
      if Ascii.eqb c sep then Some (EmptyString, s')
      else match cut s' sep with
           | Some (before, after) => Some (String c before, after)
           | None => None
           end
  end.

Definition SplitN2 (s : string) (sep : ascii) : list string :=
  match cut s sep with
  | Some (before, after) => [before; after]
  | None => [s]
  end.

(** [strings.Join(elems, sep)]. *)
Definition Join (elems : list string) (sep : string) : string :=
  String.concat sep elems.

(** A command-line flag: its name and the text of its value. *)
Record Flag : Type := {
  Name : string;
  Value : string;
}.

(** The text [%name%]. *)
Definition macro (name : string) : string :=
  String percent (name +:+ String percent EmptyString).

(** [expandArgument], over the flags of [flag.CommandLine] in the order in
    which [VisitAll] visits them. *)
Definition expandArgument (flags : list Flag) (arg : string) : string :=
  fold_left (fun arg f => Replace arg (macro (Name f)) (Value f)) flags arg.

(** The function registered as [do_nothing]. *)
Definition do_nothing (a : list string) : string * option target.error :=
  match a with
  | [] => (EmptyString, Some "do_nothing: no arg specified")
  | a0 :: _ => (a0, None)
  end.

(** How a function of the command ends: it returns, or [log.Fatalf] ends
    the process with a message about an implementation that is not found,
    or an index is out of range. *)
Inductive exit (A : Type) : Type :=
| Returns (a : A)
| Fatal (implName known : string)
| IndexPanic.
Arguments Returns {A} a.
Arguments Fatal {A} implName known.
Arguments IndexPanic {A}.

Section Registry.

(** The factories and factory types of package [pluginregistry], and the
    three operations on the registry and its factories that
    [parseFactoryInfo] uses; a nil factory is [None]. *)
Variables factory FactoryType : Type.
Variable Factory : FactoryType -> string -> option factory * option target.error.
Variable Factories : FactoryType -> list factory.
Variable UniqueImplementationName : factory -> string.

(** [parseFactoryInfo]. *)
Definition parseFactoryInfo (flags : list Flag) (factoryType : FactoryType)
    (flagValue : string) : exit (factory * string * string) :=
  let factoryInfo := SplitN2 flagValue net.colon in
  match factoryInfo with
  | [] => IndexPanic
  | factoryImplName :: rest =>
      let factoryArgument :=
        match rest with
        | factoryInfo1 :: _ => expandArgument flags factoryInfo1
        | [] => EmptyString
        end in
      match Factory factoryType factoryImplName with
      | (Some f, None) => Returns (f, factoryImplName, factoryArgument)
      | _ =>
          Fatal factoryImplName
            (Join (map UniqueImplementationName (Factories factoryType)) ", ")
      end
  end.

End Registry.

(** The factories that the command registers, by the package each comes
    from. *)
Inductive plugin : Type :=
| csvtargetmanager | targetlist
| mysql | inmemory | targetLockerNoop
| uri | literal
| echo | slowecho | example | cmd | sshcmd | randecho | terminalexpect
| targetsuccess | reportersNoop.

Definition targetManagerFactories : list plugin := [csvtargetmanager; targetlist].
Definition targetLockerFactories : list plugin := [mysql; inmemory; targetLockerNoop].
Definition testFetcherFactories : list plugin := [uri; literal].
Definition testStepFactories : list plugin :=
  [echo; slowecho; example; cmd; sshcmd; randecho; terminalexpect].
Definition reporterFactories : list plugin := [targetsuccess; reportersNoop].

(** The five loops of [setupPluginRegistry], by what they register. *)
Inductive kind : Type :=
| TargetManager | TargetLocker | TestStep | TestFetcher | JobReporter.

(** The error of [setupPluginRegistry]: unable to register a factory of
    some kind, with the factory and the error that [RegisterFactory]
    returned. *)
Inductive setup_error : Type :=
| ErrRegister (k : kind) (f : plugin) (cause : target.error).

Section Setup.

(** The registry of package [pluginregistry]: its state, the state of a
    new registry, and [RegisterFactory]. *)
Variable R : Type.
Variable NewPluginRegistry : R.
Variable RegisterFactory : plugin -> R -> option target.error * R.

(** One loop [for _, factory := range factories]. *)
Fixpoint register_all (k : kind) (factories : list plugin) (r : R)
    : option setup_error * R :=
  match factories with
  | [] => (None, r)
  | f :: factories' =>
      match RegisterFactory f r with
      | (Some err, r') => (Some (ErrRegister k f err), r')
      | (None, r') => register_all k factories' r'
      end
  end.

(** [setupPluginRegistry]: the error it returns and the registry it leaves
    in [pluginRegistry]. *)
Definition setupPluginRegistry : option setup_error * R :=
  let r := NewPluginRegistry in
  match register_all TargetManager targetManagerFactories r with
  | (Some e, r) => (Some e, r)
  | (None, r) =>
  match register_all TargetLocker targetLockerFactories r with
  | (Some e, r) => (Some e, r)
  | (None, r) =>
  match register_all TestStep testStepFactories r with
  | (Some e, r) => (Some e, r)
  | (None, r) =>
  match register_all TestFetcher testFetcherFactories r with
  | (Some e, r) => (Some e, r)
  | (None, r) =>
  match register_all JobReporter reporterFactories r with
  | (Some e, r) => (Some e, r)
  | (None, r) => (None, r)
  end end end end end.

End Setup.

(** The factories in the order of registration, each with its kind. *)
Definition registration_order : list (kind * plugin) :=
  map (pair TargetManager) targetManagerFactories
  ++ map (pair TargetLocker) targetLockerFactories
  ++ map (pair TestStep) testStepFactories
  ++ map (pair TestFetcher) testFetcherFactories
  ++ map (pair JobReporter) reporterFactories.

(** Every registration of the factories [fs] in turn, from the registry
    [r] on, succeeds. *)
Fixpoint all_registered {R : Type}
    (RegisterFactory : plugin -> R -> option target.error * R)
    (fs : list (kind * plugin)) (r : R) : Prop :=
  match fs with
  | [] => True
  | f :: fs' =>
      fst (RegisterFactory (snd f) r) = None
      ∧ all_registered RegisterFactory fs' (snd (RegisterFactory (snd f) r))
  end.

(** The registry after the factories [fs] were registered in turn. *)
Definition registered {R : Type}
    (RegisterFactory : plugin -> R -> option target.error * R)
    (fs : list (kind * plugin)) (r : R) : R :=
  fold_left (fun r f => snd (RegisterFactory (snd f) r)) fs r.

(** What a run of registrations of the factories [all] from the registry
    [r] on ends in: success, with everything registered, or the first
    failure, with its kind, its factory and its cause. *)
Definition setup_result {R : Type}
    (RegisterFactory : plugin -> R -> option target.error * R)
    (all : list (kind * plugin)) (r : R)
    (res : option setup_error * R) : Prop :=
  match fst res with
  | None =>
      all_registered RegisterFactory all r
      ∧ snd res = registered RegisterFactory all r
  | Some e =>
      ∃ before k f after cause,
        all = before ++ (k, f) :: after
        ∧ all_registered RegisterFactory before r
        ∧ RegisterFactory f (registered RegisterFactory before r)
          = (Some cause, snd res)
        ∧ e = ErrRegister k f cause
  end.

End main.

(** ** Samples for the reporter and the command *)

Module sample.

(** A decoder that takes the text for the [ApiURI], the text [bad] apart,
    which does not decode. *)
Definition unmarshal (params : string)
    : target.error + postdone.FinalParameters :=
  if String.eqb params "bad" then inl "unexpected end of JSON input"
  else inr {| postdone.ApiURI := params |}.

(** A parser that accepts the texts that start with [http]. *)
Definition parse_uri (uri : string) : option target.error :=
  if strings.HasPrefix uri "http" then None
  else Some "invalid URI for request".

(** An encoder that always yields the same text, without error. *)
Definition marshal (data : list (string * string))
    : string * option target.error :=
  ("{status:iamdone}", None).

(** A server that answers every request with the status [statuscode], and
    a network that fails. *)
Definition answers (statuscode : Z) (r : postdone.request)
    : target.error + postdone.response :=
  inr {| postdone.StatusCode := statuscode |}.

Definition unreachable (r : postdone.request)
    : target.error + postdone.response :=
  inl "connection refused".

Definition quiet : postdone.world :=
  {| postdone.logged := []; postdone.posted := [] |}.

(** A registry that knows the locker [MySQL] only. *)
Definition lookup (factoryType : unit) (name : string)
    : option string * option target.error :=
  if String.eqb name "MySQL" then (Some "mysql.Factory", None)
  else (None, Some "factory not found").

Definition dbURI (value : string) : main.Flag :=
  {| main.Name := "dbURI"; main.Value := value |}.

End sample.

(** ** Properties *)

(** *** Strings *)

Lemma append_cons (c : ascii) (p r : string) :
  String c p +:+ r = String c (p +:+ r).
Proof. reflexivity. Qed.

Lemma append_nil (r : string) : EmptyString +:+ r = r.
Proof. reflexivity. Qed.

Lemma substring_0_app (p r : string) :
  String.substring 0 (String.length p) (p +:+ r) = p.
Proof.
  induction p as [|c p IH]; [by destruct r|].
  rewrite append_cons. simpl. by rewrite IH.
Qed.

Lemma length_append (p r : string) :
  String.length (p +:+ r) = (String.length p + String.length r)%nat.
Proof.
  induction p as [|c p IH]; [done|]. rewrite append_cons. simpl. by rewrite IH.
Qed.

Lemma substring_0_split (n : nat) (s : string) :
  ∃ r, s = String.substring 0 n s +:+ r.
Proof.
  revert s; induction n as [|n IH]; intros [|c s]; simpl; eauto.
  destruct (IH s) as [r Hr]. exists r.
  change (String c s = String c (String.substring 0 n s +:+ r)). by f_equal.
Qed.

Lemma HasPrefix_spec (s prefix : string) :
  strings.HasPrefix s prefix = true ↔ ∃ r, s = prefix +:+ r.
Proof.
  unfold strings.HasPrefix. rewrite andb_true_iff, String.eqb_eq. split.
  - intros [_ H]. destruct (substring_0_split (String.length prefix) s) as [r Hr].
    exists r. by rewrite H in Hr.
  - intros [r ->]. split; [|apply substring_0_app].
    apply Nat.leb_le. rewrite length_append. lia.
Qed.

Lemma Split_not_nil (s : string) (sep : ascii) : strings.Split s sep ≠ [].
Proof.
  induction s as [|c s IH]; simpl; [done|].
  destruct (Ascii.eqb c sep); [done|]. by destruct (strings.Split s sep).
Qed.

Lemma Split_head (s : string) (sep : ascii) :
  ∃ x xs, strings.Split s sep = x :: xs ∧ first_label sep x s.
Proof.
  induction s as [|c s (x & xs & Hs & Hfree & Hx)]; simpl.
  - exists EmptyString, []. repeat split. by left.
  - destruct (Ascii.eqb c sep) eqn:Hc.
    + apply Ascii.eqb_eq in Hc as ->. eexists _, _. repeat split. right. by exists s.
    + rewrite Hs. exists (String c x), xs. repeat split; simpl.
      * by rewrite Hc.
      * destruct Hx as [->|[r ->]]; [by left|right; by exists r].
Qed.

Lemma first_label_nil (sep : ascii) (x : string) :
  first_label sep x EmptyString → x = EmptyString.
Proof.
  intros [_ [->|[r H]]]; [done|]. destruct x; by rewrite ?append_cons, ?append_nil in H.
Qed.

Lemma first_label_cons (sep c : ascii) (x s : string) :
  first_label sep x (String c s) →
  (x = EmptyString ∧ c = sep) ∨
  (∃ x', x = String c x' ∧ Ascii.eqb c sep = false ∧ first_label sep x' s).
Proof.
  intros [Hfree Hs]. destruct x as [|d x].
  - left. split; [done|]. destruct Hs as [?|[r H]]; [done|].
    rewrite append_nil in H. by simplify_eq.
  - right. simpl in Hfree. apply andb_true_iff in Hfree as [Hd Hfree].
    apply negb_true_iff in Hd. exists x.
    destruct Hs as [H|[r H]]; rewrite ?append_cons in H; simplify_eq;
      (split; [done|split; [done|split; [done|]]]); [by left|right; by exists r].
Qed.

Lemma first_label_unique (sep : ascii) (x y s : string) :
  first_label sep x s → first_label sep y s → x = y.
Proof.
  revert x y. induction s as [|c s IH]; intros x y Hx Hy.
  - apply first_label_nil in Hx, Hy. congruence.
  - apply first_label_cons in Hx as [[-> ->]|(x' & -> & Hc & Hx)],
      Hy as [[-> Hy]|(y' & -> & Hc' & Hy)]; try done.
    + by rewrite Ascii.eqb_refl in Hc'.
    + subst c. by rewrite Ascii.eqb_refl in Hc.
    + f_equal. by apply IH.
Qed.

(** *** Integer conversions *)

Lemma uint32_small (z : Z) : in_uint32 z → uint32 z = z.
Proof. intros ?. unfold uint32, in_uint32 in *. by apply Z.mod_small. Qed.

Lemma int_small (z : Z) : in_uint32 z → int z = z.
Proof.
  intros ?. unfold int, in_uint32 in *. rewrite Z.mod_small; lia.
Qed.

Lemma uint_small (z : Z) : in_uint32 z → uint z = z.
Proof. intros ?. unfold uint, in_uint32 in *. apply Z.mod_small. lia. Qed.

Lemma uint32_len_lt {A : Type} (l : list A) (z : Z) :
  in_uint32 z → len l < z → uint32 (len l) < z.
Proof.
  intros Hz Hl. rewrite uint32_small; [done|]. unfold in_uint32, len in *. lia.
Qed.

(** *** Shuffling *)

Lemma swap_Permutation (i j : nat) (hs hs' : list target.ptr) :
  swap i j hs = Some hs' → hs' ≡ₚ hs.
Proof.
  unfold swap. destruct (hs !! j) as [hj|] eqn:Hj; [|done].
  destruct (hs !! i) as [hi|] eqn:Hi; [|done].
  intros [= <-]. by apply Permutation_insert_swap.
Qed.

Lemma swap_in_range (i j : nat) (hs : list target.ptr) :
  (i < length hs)%nat → (j < length hs)%nat → is_Some (swap i j hs).
Proof.
  intros [hi Hi]%lookup_lt_is_Some [hj Hj]%lookup_lt_is_Some.
  unfold swap. rewrite Hi, Hj. eauto.
Qed.

Lemma Shuffle_from_Permutation (src : nat → nat) (i : nat) (hs : list target.ptr) :
  (i < length hs ∨ i = 0)%nat →
  ∃ hs', rand.Shuffle_from src i swap hs = Some hs' ∧ hs' ≡ₚ hs.
Proof.
  revert hs. induction i as [|i IH]; intros hs Hi; cbn [rand.Shuffle_from]; [by eauto|].
  assert (S i < length hs)%nat as Hlt by lia.
  assert (src (S i) mod (S i + 1) < length hs)%nat as Hj.
  { pose proof (Nat.mod_upper_bound (src (S i)) (S i + 1)). lia. }
  destruct (swap_in_range _ _ hs Hlt Hj) as [hs1 Hswap]. rewrite Hswap.
  pose proof (swap_Permutation _ _ _ _ Hswap) as Hperm.
  destruct (IH hs1) as (hs' & -> & Hperm').
  { left. rewrite (Permutation_length Hperm). lia. }
  exists hs'. split; [done|]. by etrans.
Qed.

Lemma pointing_to_Permutation (a : nat) (hs hs' : list target.ptr) :
  hs ≡ₚ hs' → pointing_to a hs ≡ₚ pointing_to a hs'.
Proof.
  unfold pointing_to. induction 1 as [|q l l' _ IH|q q' l|l l' l'' _ IH _ IH'];
    simpl; [done| | |by etrans].
  - destruct (target.addr q =? a)%nat; [by constructor|done].
  - destruct (target.addr q =? a)%nat, (target.addr q' =? a)%nat;
      try done. apply Permutation_swap.
Qed.

Lemma Shuffle_Permutation (src : nat → nat) (hs : list target.ptr) :
  ∃ hs', rand.Shuffle src (length hs) swap hs = Some hs' ∧ hs' ≡ₚ hs.
Proof. apply Shuffle_from_Permutation. lia. Qed.

(** *** The loop over the rows *)

Lemma range_prefixes_spec (label : string) (prefixes : list string)
    (p : target.ptr) (hs : list target.ptr) :
  range_prefixes label prefixes p hs
  = hs ++ replicate (length (matching label prefixes)) p.
Proof.
  revert hs. induction prefixes as [|hp prefixes IH]; intros hs; simpl.
  - by rewrite app_nil_r.
  - rewrite IH. destruct (strings.HasPrefix label hp); simpl; [|done].
    by rewrite <-app_assoc.
Qed.

Lemma matching_In (label hp : string) (prefixes : list string) :
  In hp (matching label prefixes)
  ↔ In hp prefixes ∧ ∃ r, label = hp +:+ r.
Proof. unfold matching. by rewrite filter_In, HasPrefix_spec. Qed.

Lemma matching_pos (label : string) (prefixes : list string) :
  (0 < length (matching label prefixes))%nat
  ↔ ∃ hp r, In hp prefixes ∧ label = hp +:+ r.
Proof.
  split.
  - destruct (matching label prefixes) as [|hp m] eqn:Hm; simpl; [lia|].
    intros _. assert (In hp (matching label prefixes)) as Hin.
    { rewrite Hm. by left. }
    apply matching_In in Hin as [? [r ?]]. eauto.
  - intros (hp & r & Hin & Hr).
    assert (In hp (matching label prefixes)) as Hin'.
    { apply matching_In. eauto. }
    destruct (matching label prefixes); simpl in *; [done|lia].
Qed.

Lemma is_empty_true (s : string) : is_empty s = true ↔ s = EmptyString.
Proof. apply String.eqb_eq. Qed.

Lemma is_empty_false (s : string) : is_empty s = false ↔ s ≠ EmptyString.
Proof. apply String.eqb_neq. Qed.

(** What [collect] appends, in every case. *)
Lemma collect_spec (ap : AcquireParameters) (p : target.ptr)
    (hs : list target.ptr) :
  ∃ k, collect ap p hs = Next (hs ++ replicate k p) ∧
    (HostPrefixes ap = [] → k = 1%nat) ∧
    (HostPrefixes ap ≠ [] → target.FQDN (target.deref p) = EmptyString →
       k = 0%nat) ∧
    (HostPrefixes ap ≠ [] → target.FQDN (target.deref p) ≠ EmptyString →
       ∃ label, first_label net.dot label (target.FQDN (target.deref p)) ∧
         k = length (matching label (HostPrefixes ap))).
Proof.
  unfold collect. destruct (HostPrefixes ap) as [|hp0 hps] eqn:Hps.
  { exists 1%nat. by repeat split. }
  cbn [length Nat.eqb].
  destruct (is_empty (target.FQDN (target.deref p))) eqn:He; cbn [negb].
  - apply is_empty_true in He. exists 0%nat. rewrite app_nil_r.
    by repeat split.
  - apply is_empty_false in He.
    destruct (Split_head (target.FQDN (target.deref p)) net.dot)
      as (label & rest & -> & Hlabel).
    exists (length (matching label (hp0 :: hps))). split.
    { by rewrite <-range_prefixes_spec. }
    repeat split; try done. intros _ _. by exists label.
Qed.

(** *** Mapping identifiers back to targets *)

Lemma FilterTargets_length (ids : list string) (hs locked : list target.ptr) :
  target.FilterTargets ids hs = Some locked → length locked = length ids.
Proof.
  revert locked. induction ids as [|id ids IH]; intros locked; simpl.
  - by intros [= <-].
  - destruct (find _ hs); [|done].
    destruct (target.FilterTargets ids hs) as [ps|]; [|done].
    intros [= <-]. simpl. f_equal. by apply IH.
Qed.

Lemma FilterTargets_In (ids : list string) (hs locked : list target.ptr)
    (p : target.ptr) :
  target.FilterTargets ids hs = Some locked → In p locked → In p hs.
Proof.
  revert locked. induction ids as [|id ids IH]; intros locked; simpl.
  - by intros [= <-].
  - destruct (find _ hs) as [q|] eqn:Hfind; [|done].
    destruct (target.FilterTargets ids hs) as [ps|]; [|done].
    intros [= <-] [->|Hin].
    + by apply find_some in Hfind as [? _].
    + by apply (IH ps).
Qed.

Section Properties.

Variable ParseIP : string → net.IP.
Variable src : nat → nat.
Context {L : Type} (tl : target.Locker L).

Lemma rows_loop_app (ap : AcquireParameters) (st : loop_state)
    (rows1 rows2 : list scan) :
  rows_loop ParseIP ap st (rows1 ++ rows2)
  = match rows_loop ParseIP ap st rows1 with
    | Next st1 => rows_loop ParseIP ap st1 rows2
    | Return e => Return e
    | Panic => Panic
    end.
Proof.
  revert st. induction rows1 as [|r rows1 IH]; intros st; simpl; [done|].
  by destruct (body ParseIP ap st r).
Qed.

(** The loop never panics: [strings.Split] always yields a first
    component. *)
Lemma rows_loop_no_panic (ap : AcquireParameters) (st : loop_state)
    (rows : list scan) :
  rows_loop ParseIP ap st rows ≠ Panic.
Proof.
  revert st. induction rows as [|[data|] rows IH]; intros st; [done| |done].
  cbn [rows_loop body]. destruct (no_data data); [apply IH|].
  destruct (fill ParseIP data) as [e|t]; [done|].
  destruct (collect_spec ap (target.Ptr (nalloc st) t) (hosts st))
    as (k & -> & _). apply IH.
Qed.

(** A row with data whose target is valid: the state after the body. *)
Lemma body_valid (ap : AcquireParameters) (st : loop_state)
    (data : mysqltable) (t : target.Target) :
  no_data data = false →
  fill ParseIP data = inr t →
  ∃ k, body ParseIP ap st (ScanOK data)
       = Next {| hosts := hosts st ++ replicate k (target.Ptr (nalloc st) t);
                 nalloc := S (nalloc st) |} ∧
    (HostPrefixes ap = [] → k = 1%nat) ∧
    (HostPrefixes ap ≠ [] → target.FQDN t = EmptyString → k = 0%nat) ∧
    (HostPrefixes ap ≠ [] → target.FQDN t ≠ EmptyString →
       ∃ label, first_label net.dot label (target.FQDN t) ∧
         k = length (matching label (HostPrefixes ap))).
Proof.
  intros Hdata Hfill. simpl. rewrite Hdata, Hfill.
  destruct (collect_spec ap (target.Ptr (nalloc st) t) (hosts st))
    as (k & -> & H). by exists k.
Qed.

(** *** Before the lock attempt *)

(** C3. When the rows load and fewer hosts than [MinNumberDevices] were
    collected, [Acquire] returns nil and the not-enough-hosts error, and
    leaves the locker and the log of calls as they were: [TryLock] is not
    called. *)
Theorem insufficient_candidates_no_trylock (ap : AcquireParameters)
    (db : database) (jobID : target.JobID) (timeout : target.Duration)
    (st : loop_state) (w : world L) :
  in_uint32 (MinNumberDevices ap) →
  load ParseIP ap db = Next st →
  len (hosts st) < MinNumberDevices ap →
  Acquire ParseIP src tl db jobID timeout (OfAcquireParameters ap) w
  = (Returned None
       (Some (ErrNotEnoughHosts (MinNumberDevices ap) (len (hosts st)))), w)
  ∧ trylock_count
      (calls (snd (Acquire ParseIP src tl db jobID timeout
                     (OfAcquireParameters ap) w)))
    = trylock_count (calls w).
Proof.
  intros Hmin Hload Hlt. unfold Acquire. rewrite Hload.
  pose proof (uint32_len_lt (hosts st) _ Hmin Hlt) as Hlt'.
  apply Z.ltb_lt in Hlt'. by rewrite Hlt'.
Qed.

(** *** Errors come with a nil slice *)

Lemma lock_error_nil (ap : AcquireParameters) (jobID : target.JobID)
    (timeout : target.Duration) (hs : list target.ptr) (w w' : world L)
    (targets : option (list target.ptr)) (e : error) :
  lock tl ap jobID timeout hs w = (Returned targets (Some e), w') →
  targets = None.
Proof.
  unfold lock. intros H. repeat case_match; by simplify_eq.
Qed.

(** C10. Whenever [Acquire] returns an error, whichever it is, the slice
    it returns with it is nil. *)
Theorem error_returns_nil (db : database) (jobID : target.JobID)
    (timeout : target.Duration) (parameters : interface) (w w' : world L)
    (targets : option (list target.ptr)) (e : error) :
  Acquire ParseIP src tl db jobID timeout parameters w
  = (Returned targets (Some e), w') →
  targets = None.
Proof.
  unfold Acquire. intros H.
  repeat case_match; simplify_eq; try done. by eapply lock_error_nil.
Qed.

(** *** Rows without data and rows without identifier *)

Lemma no_data_true (data : mysqltable) :
  no_data data = true
  ↔ hostid data = EmptyString ∧ FQDN data = EmptyString
    ∧ IPv4 data = EmptyString ∧ IPv6 data = EmptyString.
Proof.
  unfold no_data. rewrite !andb_true_iff, !is_empty_true. tauto.
Qed.

Lemma no_data_false (data : mysqltable) :
  no_data data = false
  ↔ hostid data ≠ EmptyString ∨ FQDN data ≠ EmptyString
    ∨ IPv4 data ≠ EmptyString ∨ IPv6 data ≠ EmptyString.
Proof.
  unfold no_data. rewrite !andb_false_iff, !is_empty_false. tauto.
Qed.

Lemma rows_loop_skip (ap : AcquireParameters) (st : loop_state)
    (rows1 rows2 : list scan) (data : mysqltable) :
  no_data data = true →
  rows_loop ParseIP ap st (rows1 ++ ScanOK data :: rows2)
  = rows_loop ParseIP ap st (rows1 ++ rows2).
Proof.
  intros Hdata. rewrite !rows_loop_app.
  destruct (rows_loop ParseIP ap st rows1); [|done..].
  simpl. by rewrite Hdata.
Qed.

(** C6. A row whose four fields are all empty changes nothing: [Acquire]
    gives the same results and leaves the same world as on the table
    without that row. A row with an empty identifier and some other field
    filled makes [Acquire] return nil and the empty-identifier error, with
    the world untouched, as soon as the rows before it load. *)
Theorem empty_rows_and_empty_ids (ap : AcquireParameters)
    (rows1 rows2 : list scan) (data : mysqltable)
    (jobID : target.JobID) (timeout : target.Duration) (w : world L) :
  hostid data = EmptyString →
  (FQDN data = EmptyString ∧ IPv4 data = EmptyString
   ∧ IPv6 data = EmptyString →
   Acquire ParseIP src tl (Table (rows1 ++ ScanOK data :: rows2))
     jobID timeout (OfAcquireParameters ap) w
   = Acquire ParseIP src tl (Table (rows1 ++ rows2))
       jobID timeout (OfAcquireParameters ap) w)
  ∧ (FQDN data ≠ EmptyString ∨ IPv4 data ≠ EmptyString
     ∨ IPv6 data ≠ EmptyString →
     ∀ st1, rows_loop ParseIP ap init rows1 = Next st1 →
     Acquire ParseIP src tl (Table (rows1 ++ ScanOK data :: rows2))
       jobID timeout (OfAcquireParameters ap) w
     = (Returned None (Some ErrEmptyHostID), w)).
Proof.
  intros Hid. split.
  - intros (Hname & H4 & H6). unfold Acquire, load.
    rewrite rows_loop_skip; [done|]. by apply no_data_true.
  - intros Hother st1 Hrows1. unfold Acquire, load.
    rewrite rows_loop_app, Hrows1. simpl.
    assert (no_data data = false) as -> by (apply no_data_false; tauto).
    unfold fill. apply is_empty_true in Hid. by rewrite Hid.
Qed.

(** *** Shuffling *)

(** C8. Shuffling a slice of targets never panics and returns a
    permutation of the slice: the same targets with the same
    multiplicities, in some order, and so of the same length; this holds
    for every sequence of numbers the random source may yield. *)
Theorem shuffle_permutation (hs : list target.ptr) :
  ∃ hs', rand.Shuffle src (length hs) swap hs = Some hs' ∧
    hs' ≡ₚ hs ∧ length hs' = length hs ∧
    ∀ a, pointing_to a hs' ≡ₚ pointing_to a hs.
Proof.
  destruct (Shuffle_Permutation src hs) as (hs' & Hs & Hperm).
  exists hs'. split; [done|]. split; [done|]. split.
  - by apply Permutation_length.
  - intros a. by apply pointing_to_Permutation.
Qed.

Lemma shuffle_Some (ap : AcquireParameters) (hs : list target.ptr) :
  ∃ hs', shuffle src ap hs = Some hs' ∧ hs' ≡ₚ hs.
Proof.
  unfold shuffle. destruct (Shuffle ap); [|by exists hs].
  apply Shuffle_Permutation.
Qed.

(** *** The lock attempt and its reconciliation *)

(** From the loaded rows to the call of [TryLock]. *)
Lemma Acquire_reaches_lock (ap : AcquireParameters) (db : database)
    (jobID : target.JobID) (timeout : target.Duration)
    (st : loop_state) (hs : list target.ptr) (w : world L) :
  load ParseIP ap db = Next st →
  MinNumberDevices ap <= uint32 (len (hosts st)) →
  shuffle src ap (hosts st) = Some hs →
  Acquire ParseIP src tl db jobID timeout (OfAcquireParameters ap) w
  = lock tl ap jobID timeout hs w.
Proof.
  intros Hload Hmin Hshuffle. unfold Acquire. rewrite Hload, Hshuffle.
  by apply Z.ltb_ge in Hmin as ->.
Qed.

(** C4, as the code has it. When [TryLock] returns an error, a timeout
    or any other, [Acquire] returns nil and the failed-to-lock error that
    wraps it, whatever identifiers came with the error: they are not
    mapped back to targets, and [Unlock] is not called. *)
Theorem trylock_error_ends_acquire (ap : AcquireParameters) (db : database)
    (jobID : target.JobID) (timeout : target.Duration) (st : loop_state)
    (hs : list target.ptr) (w : world L)
    (ids : list string) (e : target.error) (s1 : L) :
  load ParseIP ap db = Next st →
  MinNumberDevices ap <= uint32 (len (hosts st)) →
  shuffle src ap (hosts st) = Some hs →
  target.TryLock tl jobID timeout hs (uint (MaxNumberDevices ap))
    (locker_state w) = ((ids, Some e), s1) →
  Acquire ParseIP src tl db jobID timeout (OfAcquireParameters ap) w
  = (Returned None (Some (ErrFailedToLock e)),
     {| locker_state := s1;
        calls := calls w
                 ++ [CallTryLock jobID timeout hs (uint (MaxNumberDevices ap))];
        tf_hosts := tf_hosts w |}).
Proof.
  intros Hload Hmin Hshuffle Htry.
  rewrite (Acquire_reaches_lock _ _ _ _ _ _ _ Hload Hmin Hshuffle).
  unfold lock. by rewrite Htry.
Qed.

(** C1, as the code has it. When [TryLock] succeeds and the targets found
    for its identifiers are fewer than [MinNumberDevices] but not none,
    [Acquire] calls [Unlock] once, for all of them, and returns nil with
    one error: the cannot-lock-enough error when [Unlock] succeeds, the
    cannot-unlock error in its place when [Unlock] fails. *)
Theorem partial_lock_is_unlocked (ap : AcquireParameters) (db : database)
    (jobID : target.JobID) (timeout : target.Duration) (st : loop_state)
    (hs locked : list target.ptr) (w : world L)
    (ids : list string) (s1 s2 : L) (uerr : option target.error) :
  in_uint32 (MinNumberDevices ap) →
  load ParseIP ap db = Next st →
  MinNumberDevices ap <= uint32 (len (hosts st)) →
  shuffle src ap (hosts st) = Some hs →
  target.TryLock tl jobID timeout hs (uint (MaxNumberDevices ap))
    (locker_state w) = ((ids, None), s1) →
  target.FilterTargets ids hs = Some locked →
  0 < len locked < MinNumberDevices ap →
  target.Unlock tl jobID locked s1 = (uerr, s2) →
  Acquire ParseIP src tl db jobID timeout (OfAcquireParameters ap) w
  = (Returned None
       (Some (match uerr with
              | Some _ => ErrCantUnlock
              | None => ErrCantLockEnough
              end)),
     {| locker_state := s2;
        calls := calls w
                 ++ [CallTryLock jobID timeout hs (uint (MaxNumberDevices ap));
                     CallUnlock jobID locked];
        tf_hosts := tf_hosts w |}).
Proof.
  intros Hin Hload Hmin Hshuffle Htry Hfilter [Hpos Hlt] Hunlock.
  rewrite (Acquire_reaches_lock _ _ _ _ _ _ _ Hload Hmin Hshuffle).
  unfold lock. rewrite Htry, Hfilter, (int_small _ Hin).
  apply Z.leb_gt in Hlt as ->. apply Z.ltb_lt in Hpos as ->.
  rewrite Hunlock. unfold log_call; simpl. rewrite <-app_assoc.
  by destruct uerr.
Qed.

(** C2, as the code has it. When [Acquire] returns without error, the
    slice it returns has at least [MinNumberDevices] elements, every one
    of them is one of the hosts collected from the rows, and the slice is
    stored in the receiver. It has as many elements as [TryLock] reported
    identifiers on this call, and so at most [MaxNumberDevices] elements
    when [TryLock] reported at most that many, which [Acquire] does not
    check. *)
Theorem success_bounds (ap : AcquireParameters) (db : database)
    (jobID : target.JobID) (timeout : target.Duration) (st : loop_state)
    (w w' : world L) (targets : option (list target.ptr)) :
  in_uint32 (MinNumberDevices ap) →
  in_uint32 (MaxNumberDevices ap) →
  load ParseIP ap db = Next st →
  Acquire ParseIP src tl db jobID timeout (OfAcquireParameters ap) w
  = (Returned targets None, w') →
  ∃ hs ids s1,
    shuffle src ap (hosts st) = Some hs ∧
    target.TryLock tl jobID timeout hs (MaxNumberDevices ap) (locker_state w)
    = ((ids, None), s1) ∧
    MinNumberDevices ap <= len (elements targets) ∧
    (∀ p, In p (elements targets) → In p (hosts st)) ∧
    tf_hosts w' = targets ∧
    len (elements targets) = len ids ∧
    (len ids <= MaxNumberDevices ap →
     len (elements targets) <= MaxNumberDevices ap).
Proof.
  intros Hmin Hmax Hload. unfold Acquire. rewrite Hload.
  destruct (uint32 (len (hosts st)) <? MinNumberDevices ap); [done|].
  destruct (shuffle_Some ap (hosts st)) as (hs & -> & Hperm).
  unfold lock. rewrite (uint_small _ Hmax).
  destruct (target.TryLock tl jobID timeout hs (MaxNumberDevices ap)
              (locker_state w)) as [[ids err] s1] eqn:Htry.
  destruct err; [done|].
  destruct (target.FilterTargets ids hs) as [locked|] eqn:Hfilter; [|done].
  rewrite (int_small _ Hmin).
  destruct (MinNumberDevices ap <=? len locked) eqn:Hle.
  - intros [= <- <-]. exists hs, ids, s1. apply Z.leb_le in Hle.
    assert (len locked = len ids) as Hlen.
    { unfold len. by rewrite (FilterTargets_length _ _ _ Hfilter). }
    simpl. repeat split; try done.
    + intros p Hp. apply (Permutation_in p Hperm).
      by eapply FilterTargets_In.
    + by rewrite Hlen.
  - destruct (0 <? len locked); [|done].
    destruct (target.Unlock tl jobID locked s1) as [[?|] ?]; done.
Qed.

(** *** Addresses and multiplicities *)

(** The target of a row that is not refused. *)
Lemma fill_inr (data : mysqltable) (t : target.Target) :
  fill ParseIP data = inr t →
  hostid data ≠ EmptyString
  ∧ t = {| target.ID := hostid data; target.FQDN := FQDN data;
           target.PrimaryIPv4 :=
             if is_empty (IPv4 data) then None else ParseIP (IPv4 data);
           target.PrimaryIPv6 :=
             if is_empty (IPv6 data) then None else ParseIP (IPv6 data) |}.
Proof.
  unfold fill. destruct (is_empty (hostid data)) eqn:Hid; [done|].
  apply is_empty_false in Hid.
  destruct (is_empty (FQDN data)) eqn:Hname;
    [apply is_empty_true in Hname; rewrite Hname|];
    destruct (is_empty (IPv4 data)), (is_empty (IPv6 data)); cbn [negb];
    repeat (case_match; simplify_eq; try done); by intros [= <-].
Qed.

Lemma fill_fields (data : mysqltable) (t : target.Target) :
  fill ParseIP data = inr t →
  hostid data ≠ EmptyString ∧ target.ID t = hostid data
  ∧ target.FQDN t = FQDN data.
Proof. by intros [? ->]%fill_inr. Qed.

(** The body appends only pointers to the target it allocates. *)
Lemma body_extends (ap : AcquireParameters) (st st' : loop_state) (r : scan) :
  body ParseIP ap st r = Next st' →
  ∃ new, hosts st' = hosts st ++ new ∧ (nalloc st <= nalloc st')%nat ∧
    Forall (fun q => (nalloc st <= target.addr q < nalloc st')%nat) new.
Proof.
  destruct r as [data|]; [|done]. simpl.
  destruct (no_data data) eqn:Hdata.
  { intros [= <-]. exists []. rewrite app_nil_r. by repeat split. }
  destruct (fill ParseIP data) as [e|t]; [done|].
  destruct (collect_spec ap (target.Ptr (nalloc st) t) (hosts st))
    as (k & -> & _).
  intros [= <-]. simpl. eexists. split; [done|]. split; [lia|].
  apply List.Forall_forall. intros q Hq. apply list_elem_of_In in Hq.
  apply elem_of_replicate in Hq as [-> _]. simpl. lia.
Qed.

Lemma rows_loop_extends (ap : AcquireParameters) (rows : list scan)
    (st st' : loop_state) :
  rows_loop ParseIP ap st rows = Next st' →
  ∃ new, hosts st' = hosts st ++ new ∧ (nalloc st <= nalloc st')%nat ∧
    Forall (fun q => (nalloc st <= target.addr q < nalloc st')%nat) new.
Proof.
  revert st. induction rows as [|r rows IH]; intros st; simpl.
  { intros [= <-]. exists []. rewrite app_nil_r. by repeat split. }
  destruct (body ParseIP ap st r) as [st1| |] eqn:Hbody; [|done..].
  intros Hrows. apply body_extends in Hbody as (new1 & H1 & Hle1 & Hall1).
  apply IH in Hrows as (new2 & H2 & Hle2 & Hall2).
  exists (new1 ++ new2). rewrite H2, H1, <-app_assoc. split; [done|].
  split; [lia|]. apply Forall_app. split.
  - eapply Forall_impl; [exact Hall1|]. simpl. intros; lia.
  - eapply Forall_impl; [exact Hall2|]. simpl. intros; lia.
Qed.

Lemma pointing_to_none (a : nat) (hs : list target.ptr) :
  Forall (fun q => target.addr q ≠ a) hs → pointing_to a hs = [].
Proof.
  unfold pointing_to. induction 1 as [|q hs Hq _ IH]; simpl; [done|].
  by apply Nat.eqb_neq in Hq as ->.
Qed.

Lemma pointing_to_replicate (a k : nat) (t : target.Target) :
  pointing_to a (replicate k (target.Ptr a t)) = replicate k (target.Ptr a t).
Proof.
  unfold pointing_to. induction k as [|k IH]; simpl; [done|].
  by rewrite Nat.eqb_refl, IH.
Qed.

Lemma pointing_to_app (a : nat) (hs1 hs2 : list target.ptr) :
  pointing_to a (hs1 ++ hs2) = pointing_to a hs1 ++ pointing_to a hs2.
Proof. apply List.filter_app. Qed.

Lemma lock_calls (ap : AcquireParameters) (jobID : target.JobID)
    (timeout : target.Duration) (hs : list target.ptr) (w : world L) :
  ∃ rest, calls (snd (lock tl ap jobID timeout hs w))
          = calls w
            ++ CallTryLock jobID timeout hs (uint (MaxNumberDevices ap)) :: rest
    ∧ trylock_count rest = 0%nat.
Proof.
  unfold lock.
  destruct (target.TryLock _ _ _ _ _ _) as [[ids err] s1].
  destruct err; [by exists []|].
  destruct (target.FilterTargets ids hs) as [locked|]; [|by exists []].
  destruct (_ <=? _); [by exists []|].
  destruct (_ <? _); [|by exists []].
  destruct (target.Unlock tl jobID locked s1) as [uerr s2].
  exists [CallUnlock jobID locked].
  destruct uerr; simpl; by rewrite <-app_assoc.
Qed.

(** The entries of the final [hosts] that point to the target of one row:
    those the body appended for that row, and no others. *)
Lemma row_entries (ap : AcquireParameters) (rows1 rows2 : list scan)
    (data : mysqltable) (t : target.Target) (st1 st : loop_state) (k : nat) :
  rows_loop ParseIP ap init rows1 = Next st1 →
  body ParseIP ap st1 (ScanOK data)
  = Next {| hosts := hosts st1 ++ replicate k (target.Ptr (nalloc st1) t);
            nalloc := S (nalloc st1) |} →
  rows_loop ParseIP ap init (rows1 ++ ScanOK data :: rows2) = Next st →
  pointing_to (nalloc st1) (hosts st)
  = replicate k (target.Ptr (nalloc st1) t).
Proof.
  intros Hrows1 Hbody Hrows.
  rewrite rows_loop_app, Hrows1 in Hrows.
  cbn [rows_loop] in Hrows. rewrite Hbody in Hrows.
  apply rows_loop_extends in Hrows as (new2 & H2 & Hle2 & Hall2).
  apply rows_loop_extends in Hrows1 as (new1 & H1 & Hle1 & Hall1).
  simpl in H1, H2, Hall1, Hall2, Hle1, Hle2.
  assert (pointing_to (nalloc st1) new1 = []) as Hnew1.
  { apply pointing_to_none. eapply Forall_impl; [exact Hall1|].
    simpl. intros; lia. }
  assert (pointing_to (nalloc st1) new2 = []) as Hnew2.
  { apply pointing_to_none. eapply Forall_impl; [exact Hall2|].
    simpl. intros; lia. }
  rewrite H2, H1, !pointing_to_app, Hnew1, Hnew2, app_nil_r.
  apply pointing_to_replicate.
Qed.

Lemma In_pointing_to (p : target.ptr) (hs : list target.ptr) :
  In p hs ↔ In p (pointing_to (target.addr p) hs).
Proof.
  unfold pointing_to. rewrite filter_In, Nat.eqb_refl. tauto.
Qed.

(** C7. For every table that loads, every row of it whose target is valid
    and every prefix list: the body appends a pointer to the row's target
    to [hosts] [k] times, these are the entries of the candidates [hosts]
    of the whole table that point to the target, and the target is among
    the candidates exactly when [k] is positive. That is so when the
    prefix list is empty (then [k] is one); with prefixes it is so exactly
    when the target's name is not empty and its first dot-delimited label
    starts with one of the prefixes, byte for byte; a target without a
    name is left out as soon as there is a prefix. *)
Theorem prefix_filter (ap : AcquireParameters) (rows1 rows2 : list scan)
    (data : mysqltable) (t : target.Target) (st1 st : loop_state) :
  rows_loop ParseIP ap init rows1 = Next st1 →
  fill ParseIP data = inr t →
  rows_loop ParseIP ap init (rows1 ++ ScanOK data :: rows2) = Next st →
  ∃ k, body ParseIP ap st1 (ScanOK data)
       = Next {| hosts := hosts st1 ++ replicate k (target.Ptr (nalloc st1) t);
                 nalloc := S (nalloc st1) |} ∧
    pointing_to (nalloc st1) (hosts st)
    = replicate k (target.Ptr (nalloc st1) t) ∧
    (In (target.Ptr (nalloc st1) t) (hosts st) ↔ (0 < k)%nat) ∧
    (HostPrefixes ap = [] → k = 1%nat) ∧
    (HostPrefixes ap ≠ [] →
       ((0 < k)%nat ↔
        target.FQDN t ≠ EmptyString ∧
        ∃ label hp r, first_label net.dot label (target.FQDN t) ∧
          In hp (HostPrefixes ap) ∧ label = hp +:+ r)) ∧
    (HostPrefixes ap ≠ [] → target.FQDN t = EmptyString → k = 0%nat).
Proof.
  intros Hrows1 Hfill Hrows.
  assert (no_data data = false) as Hdata.
  { apply fill_inr in Hfill as [Hid _]. apply no_data_false. by left. }
  destruct (body_valid ap st1 data t Hdata Hfill) as (k & Hbody & H1 & H0 & Hk).
  pose proof (row_entries ap rows1 rows2 data t st1 st k Hrows1 Hbody Hrows)
    as Hentries.
  exists k. split; [done|]. split; [done|]. split.
  { rewrite (In_pointing_to (target.Ptr (nalloc st1) t)). simpl.
    rewrite Hentries. split.
    - destruct k; simpl; [done|lia].
    - destruct k; simpl; [lia|auto]. }
  split; [done|]. split; [|done].
  intros Hps. split.
  - intros Hpos. destruct (decide (target.FQDN t = EmptyString)) as [He|Hne].
    { specialize (H0 Hps He). lia. }
    split; [done|]. destruct (Hk Hps Hne) as (label & Hlabel & ->).
    apply matching_pos in Hpos as (hp & r & Hin & Hr). by exists label, hp, r.
  - intros (Hne & label & hp & r & Hlabel & Hin & Hr).
    destruct (Hk Hps Hne) as (label' & Hlabel' & ->).
    rewrite (first_label_unique _ _ _ _ Hlabel' Hlabel).
    apply matching_pos. eauto.
Qed.

(** C9, as the code has it. With a prefix filter, a row whose target is
    valid and has a name puts into [hosts] one pointer to its target for
    every entry of the prefix list that the first label of the name starts
    with, an entry listed twice counting twice: [k] entries for [k]
    matching entries, all of them the same pointer, and no other row adds
    a pointer to that target; in a prefix list without duplicates the
    matching entries are distinct prefixes. The slice passed to [TryLock]
    holds exactly these [k] pointers to it, so [k] is two or more as soon
    as two prefixes match. *)
Theorem prefix_multiplicity (ap : AcquireParameters)
    (rows1 rows2 : list scan) (data : mysqltable) (t : target.Target)
    (st1 st : loop_state) (jobID : target.JobID)
    (timeout : target.Duration) (w : world L) :
  HostPrefixes ap ≠ [] →
  rows_loop ParseIP ap init rows1 = Next st1 →
  fill ParseIP data = inr t →
  FQDN data ≠ EmptyString →
  rows_loop ParseIP ap init (rows1 ++ ScanOK data :: rows2) = Next st →
  MinNumberDevices ap <= uint32 (len (hosts st)) →
  ∃ label hs rest,
    first_label net.dot label (FQDN data) ∧
    (NoDup (HostPrefixes ap) → NoDup (matching label (HostPrefixes ap))) ∧
    pointing_to (nalloc st1) (hosts st)
    = replicate (length (matching label (HostPrefixes ap)))
        (target.Ptr (nalloc st1) t) ∧
    calls (snd (Acquire ParseIP src tl
                  (Table (rows1 ++ ScanOK data :: rows2))
                  jobID timeout (OfAcquireParameters ap) w))
    = calls w
      ++ CallTryLock jobID timeout hs (uint (MaxNumberDevices ap)) :: rest ∧
    pointing_to (nalloc st1) hs
    = replicate (length (matching label (HostPrefixes ap)))
        (target.Ptr (nalloc st1) t).
Proof.
  intros Hps Hrows1 Hfill Hname Hrows Hmin.
  pose proof (fill_fields _ _ Hfill) as (_ & _ & Hfqdn).
  assert (no_data data = false) as Hdata by (apply no_data_false; tauto).
  destruct (body_valid ap st1 data t Hdata Hfill) as (k & Hbody & _ & _ & Hk).
  destruct Hk as (label & Hlabel & ->); [done|by rewrite Hfqdn|].
  rewrite Hfqdn in Hlabel.
  set (k := length (matching label (HostPrefixes ap))) in *.
  set (p := target.Ptr (nalloc st1) t) in *.
  pose proof Hrows as Hrows'.
  rewrite rows_loop_app, Hrows1 in Hrows'.
  cbn [rows_loop] in Hrows'. rewrite Hbody in Hrows'.
  apply rows_loop_extends in Hrows' as (new2 & H2 & Hle2 & Hall2).
  apply rows_loop_extends in Hrows1 as (new1 & H1 & Hle1 & Hall1).
  simpl in H1, H2, Hall1, Hall2, Hle1, Hle2.
  assert (pointing_to (nalloc st1) (hosts st) = replicate k p) as Hhosts.
  { assert (pointing_to (nalloc st1) new1 = []) as Hnew1.
    { apply pointing_to_none. eapply Forall_impl; [exact Hall1|].
      simpl. intros; lia. }
    assert (pointing_to (nalloc st1) new2 = []) as Hnew2.
    { apply pointing_to_none. eapply Forall_impl; [exact Hall2|].
      simpl. intros; lia. }
    rewrite H2, H1, !pointing_to_app, Hnew1, Hnew2, app_nil_r.
    apply pointing_to_replicate. }
  destruct (shuffle_Some ap (hosts st)) as (hs & Hshuffle & Hperm).
  destruct (lock_calls ap jobID timeout hs w) as (rest & Hcalls & _).
  exists label, hs, rest. split; [done|]. split.
  { intros Hnodup%NoDup_ListNoDup. apply NoDup_ListNoDup.
    unfold matching. by apply List.NoDup_filter. }
  split; [done|]. split.
  - by rewrite (Acquire_reaches_lock _ (Table _) _ _ _ _ _ Hrows Hmin Hshuffle).
  - symmetry. apply replicate_Permutation.
    etrans; [|symmetry; apply (pointing_to_Permutation _ _ _ Hperm)].
    by rewrite Hhosts.
Qed.

(** *** Address fields *)

(** An [IPv4] field that is not empty and does not parse, or parses to an
    address that is not an IPv4 address, ends the load with the
    invalid-IPv4 error, which carries the text of the field. *)
Lemma invalid_ipv4_aborts (ap : AcquireParameters) (st : loop_state)
    (data : mysqltable) :
  hostid data ≠ EmptyString →
  IPv4 data ≠ EmptyString →
  net.To4 (ParseIP (IPv4 data)) = None →
  body ParseIP ap st (ScanOK data) = Return (ErrInvalidIPv4 (IPv4 data)).
Proof.
  intros Hid%is_empty_false H4%is_empty_false Hbad. simpl.
  assert (no_data data = false) as ->.
  { unfold no_data. by rewrite Hid. }
  unfold fill. rewrite Hid, H4. cbn [negb].
  destruct (is_empty (FQDN data)); cbn [negb]; simpl; rewrite Hbad; simpl;
    by rewrite orb_true_r.
Qed.

(** An [IPv6] field that does not parse ends the load with the
    invalid-IPv6 error. *)
Lemma unparsed_ipv6_aborts (ap : AcquireParameters) (st : loop_state)
    (data : mysqltable) :
  hostid data ≠ EmptyString →
  IPv4 data = EmptyString →
  IPv6 data ≠ EmptyString →
  ParseIP (IPv6 data) = None →
  body ParseIP ap st (ScanOK data) = Return (ErrInvalidIPv6 (IPv6 data)).
Proof.
  intros Hid%is_empty_false H4%is_empty_true H6%is_empty_false Hbad. simpl.
  assert (no_data data = false) as ->.
  { unfold no_data. by rewrite Hid. }
  unfold fill. rewrite Hid, H4, H6. cbn [negb].
  destruct (is_empty (FQDN data)); cbn [negb]; simpl; by rewrite Hbad.
Qed.

(** The test on [To16] lets every parsed address through, of either
    family: [To16] is nil only for slices that are neither four nor
    sixteen bytes long. *)
Lemma parsed_ipv6_accepted (data : mysqltable) (p : list N) :
  hostid data ≠ EmptyString →
  IPv4 data = EmptyString →
  IPv6 data ≠ EmptyString →
  ParseIP (IPv6 data) = Some p →
  length p = net.IPv6len →
  fill ParseIP data
  = inr {| target.ID := hostid data; target.FQDN := FQDN data;
           target.PrimaryIPv4 := None; target.PrimaryIPv6 := Some p |}.
Proof.
  intros Hid%is_empty_false H4%is_empty_true H6%is_empty_false Hip Hlen.
  unfold fill. rewrite Hid, H4, H6. cbn [negb].
  destruct (is_empty (FQDN data)) eqn:Hname; cbn [negb]; simpl;
    rewrite Hip; simpl; rewrite Hlen; simpl; [|done].
  apply is_empty_true in Hname. by rewrite Hname.
Qed.

End Properties.

(** ** The properties on sample tables *)

Import double.

Lemma in_uint32_3 : in_uint32 3.
Proof. unfold in_uint32. lia. Defined.

Lemma in_uint32_2 : in_uint32 2.
Proof. unfold in_uint32. lia. Defined.

Lemma greedy_honours_limit : honours_limit greedy.
Proof.
  intros jobID timeout hs limit s Hlimit. simpl. unfold len.
  rewrite length_map, length_take. lia.
Defined.

(** Two hosts for a minimum of three: no call to the locker. *)
Lemma insufficient_candidates_no_trylock_witness :
  in_uint32 3
  ∧ load net.ParseIP (params 3 3 [] false) (Table [web01; db01])
    = Next (loaded (params 3 3 [] false) [web01; db01])
  ∧ len (hosts (loaded (params 3 3 [] false) [web01; db01])) < 3
  ∧ run greedy [web01; db01] (params 3 3 [] false) fresh
    = (Returned None (Some (ErrNotEnoughHosts 3 2)), fresh)
  ∧ trylock_count
      (calls (snd (run greedy [web01; db01] (params 3 3 [] false) fresh)))
    = 0%nat.
Proof.
  split; [exact in_uint32_3|]. split; [reflexivity|]. split; [reflexivity|].
  exact (insufficient_candidates_no_trylock net.ParseIP src0 greedy
           (params 3 3 [] false) (Table [web01; db01]) 7 60
           (loaded (params 3 3 [] false) [web01; db01]) fresh
           in_uint32_3 eq_refl eq_refl).
Defined.

(** The same failure, seen from the caller: the slice is nil. *)
Lemma error_returns_nil_witness :
  run greedy [web01; db01] (params 3 3 [] false) fresh
  = (Returned None (Some (ErrNotEnoughHosts 3 2)), fresh)
  ∧ @None (list target.ptr) = None.
Proof.
  split; [reflexivity|].
  exact (error_returns_nil net.ParseIP src0 greedy (Table [web01; db01]) 7 60
           (OfAcquireParameters (params 3 3 [] false)) fresh fresh None
           (ErrNotEnoughHosts 3 2) eq_refl).
Defined.

(** Of the three sample hosts, the prefix [web] keeps [web01.example.com]
    among the candidates and drops [db01.example.com]. *)
Lemma prefix_filter_witness :
  In (host 0 "h1" "web01.example.com")
    (hosts (loaded (params 1 1 ["web"] false) three_hosts))
  ∧ ¬ In (host 1 "h2" "db01.example.com")
        (hosts (loaded (params 1 1 ["web"] false) three_hosts)).
Proof.
  split.
  - destruct (prefix_filter net.ParseIP (params 1 1 ["web"] false)
                [] [db01; unnamed]
                {| ID := 0; hostid := "h1"; FQDN := "web01.example.com";
                   IPv4 := EmptyString; IPv6 := EmptyString |}
                (target.deref (host 0 "h1" "web01.example.com"))
                init (loaded (params 1 1 ["web"] false) three_hosts)
                eq_refl eq_refl eq_refl) as (k & _ & _ & Hin & _ & Hk & _).
    apply Hin, Hk; [discriminate|].
    split; [discriminate|]. exists "web01", "web", "01".
    repeat split; [by right; exists "example.com"|by left].
  - destruct (prefix_filter net.ParseIP (params 1 1 ["web"] false)
                [web01] [unnamed]
                {| ID := 0; hostid := "h2"; FQDN := "db01.example.com";
                   IPv4 := EmptyString; IPv6 := EmptyString |}
                (target.deref (host 1 "h2" "db01.example.com"))
                (loaded (params 1 1 ["web"] false) [web01])
                (loaded (params 1 1 ["web"] false) three_hosts)
                eq_refl eq_refl eq_refl) as (k & _ & _ & Hin & _ & Hk & _).
    intros Hpos%Hin.
    apply Hk in Hpos as (_ & label & hp & r & Hlabel & Hmem & Hr);
      [|discriminate].
    assert (first_label net.dot "db01" "db01.example.com") as Hdb.
    { repeat split. by right; exists "example.com". }
    rewrite (first_label_unique _ _ _ _ Hlabel Hdb) in Hr.
    destruct Hmem as [<-|[]]. discriminate Hr.
Defined.

(** A row without data between two hosts is passed over; a row with a name
    but no identifier aborts the call. *)
Lemma empty_rows_and_empty_ids_witness :
  run greedy ([web01] ++ row EmptyString EmptyString EmptyString EmptyString :: [db01]) (params 1 2 [] false) fresh
  = run greedy ([web01] ++ [db01]) (params 1 2 [] false) fresh
  ∧ run greedy ([web01] ++ row EmptyString "db01.example.com" EmptyString EmptyString :: [unnamed])
      (params 1 2 [] false) fresh
    = (Returned None (Some ErrEmptyHostID), fresh).
Proof.
  split.
  - apply (empty_rows_and_empty_ids net.ParseIP src0 greedy
             (params 1 2 [] false) [web01] [db01]
             {| ID := 0; hostid := EmptyString; FQDN := EmptyString; IPv4 := EmptyString; IPv6 := EmptyString |}
             7 60 fresh eq_refl).
    by repeat split.
  - apply (empty_rows_and_empty_ids net.ParseIP src0 greedy
             (params 1 2 [] false) [web01] [unnamed]
             {| ID := 0; hostid := EmptyString; FQDN := "db01.example.com";
                IPv4 := EmptyString; IPv6 := EmptyString |}
             7 60 fresh eq_refl) with (st1 := loaded (params 1 2 [] false) [web01]).
    + left. discriminate.
    + reflexivity.
Defined.

(** [web01] starts with two of the three prefixes and is handed to
    [TryLock] twice. *)
Lemma prefix_multiplicity_witness :
  ∃ hs rest,
    calls (snd (run greedy ([db01] ++ web01 :: [unnamed])
                  (params 1 2 ["web"; "db"; "we"] true) fresh))
    = CallTryLock 7 60 hs 2 :: rest
    ∧ pointing_to 1 hs = replicate 2 (host 1 "h1" "web01.example.com").
Proof.
  destruct (prefix_multiplicity net.ParseIP src0 greedy
              (params 1 2 ["web"; "db"; "we"] true) [db01] [unnamed]
              {| ID := 0; hostid := "h1"; FQDN := "web01.example.com";
                 IPv4 := EmptyString; IPv6 := EmptyString |}
              (target.deref (host 1 "h1" "web01.example.com"))
              (loaded (params 1 2 ["web"; "db"; "we"] true) [db01])
              (loaded (params 1 2 ["web"; "db"; "we"] true)
                 ([db01] ++ web01 :: [unnamed]))
              7 60 fresh)
    as (label & hs & rest & Hlabel & _ & _ & Hcalls & Hhs).
  - discriminate.
  - reflexivity.
  - reflexivity.
  - discriminate.
  - reflexivity.
  - vm_compute. discriminate.
  - exists hs, rest. split; [exact Hcalls|].
    assert (first_label net.dot "web01" "web01.example.com") as Hweb.
    { repeat split. by right; exists "example.com". }
    rewrite (first_label_unique _ _ _ _ Hlabel Hweb) in Hhs. exact Hhs.
Defined.

(** C9, counterexample. The prefix list holds the prefix [web] twice. The
    label [web01] starts with one distinct prefix of the list, and yet the
    slice handed to [TryLock] holds the pointer to the target twice. *)
Lemma duplicate_prefix_counts_twice :
  List.nodup String.string_dec (matching "web01" ["web"; "web"]) = ["web"]
  ∧ calls (snd (run greedy [web01] (params 1 2 ["web"; "web"] false) fresh))
    = [CallTryLock 7 60
         [host 0 "h1" "web01.example.com"; host 0 "h1" "web01.example.com"] 2]
  ∧ length (pointing_to 0
              [host 0 "h1" "web01.example.com";
               host 0 "h1" "web01.example.com"])
    ≠ length (List.nodup String.string_dec (matching "web01" ["web"; "web"])).
Proof. repeat split; [vm_compute; reflexivity..|vm_compute; discriminate]. Qed.

(** Two of three hosts locked, and [Unlock] succeeds. *)
Lemma partial_lock_is_unlocked_witness :
  run (scripted {| grant := ["h1"; "h2"]; lock_err := None; unlock_err := None |})
    three_hosts (params 3 3 [] false) fresh
  = (Returned None (Some ErrCantLockEnough),
     {| locker_state := tt;
        calls := [CallTryLock 7 60
                    [host 0 "h1" "web01.example.com";
                     host 1 "h2" "db01.example.com"; host 2 "h3" EmptyString] 3;
                  CallUnlock 7
                    [host 0 "h1" "web01.example.com";
                     host 1 "h2" "db01.example.com"]];
        tf_hosts := None |}).
Proof.
  apply (partial_lock_is_unlocked net.ParseIP src0
           (scripted {| grant := ["h1"; "h2"]; lock_err := None;
                        unlock_err := None |})
           (params 3 3 [] false) (Table three_hosts) 7 60
           (loaded (params 3 3 [] false) three_hosts)
           [host 0 "h1" "web01.example.com";
            host 1 "h2" "db01.example.com"; host 2 "h3" EmptyString]
           [host 0 "h1" "web01.example.com"; host 1 "h2" "db01.example.com"]
           fresh ["h1"; "h2"] tt tt None in_uint32_3).
  - reflexivity.
  - vm_compute. discriminate.
  - reflexivity.
  - reflexivity.
  - reflexivity.
  - split; reflexivity.
  - reflexivity.
Defined.

(** C1, counterexample. Two of three hosts are locked and [Unlock] fails:
    the call returns the cannot-unlock error, and the cannot-lock-enough
    error is not reported at all. *)
Lemma unlock_failure_replaces_quorum_error :
  target.FilterTargets ["h1"; "h2"] (hosts (loaded (params 3 3 [] false) three_hosts))
  = Some [host 0 "h1" "web01.example.com"; host 1 "h2" "db01.example.com"]
  ∧ fst (run (scripted {| grant := ["h1"; "h2"]; lock_err := None;
                          unlock_err := Some "unlock failed" |})
           three_hosts (params 3 3 [] false) fresh)
    = Returned None (Some ErrCantUnlock)
  ∧ fst (run (scripted {| grant := ["h1"; "h2"]; lock_err := None;
                          unlock_err := Some "unlock failed" |})
           three_hosts (params 3 3 [] false) fresh)
    ≠ Returned None (Some ErrCantLockEnough).
Proof. repeat split; [reflexivity..|discriminate]. Qed.

(** The locker times out after it has locked one host. *)
Lemma trylock_error_ends_acquire_witness :
  run (scripted {| grant := ["h1"]; lock_err := Some "context deadline exceeded";
                   unlock_err := None |})
    three_hosts (params 2 3 [] false) fresh
  = (Returned None (Some (ErrFailedToLock "context deadline exceeded")),
     {| locker_state := tt;
        calls := [CallTryLock 7 60
                    [host 0 "h1" "web01.example.com";
                     host 1 "h2" "db01.example.com"; host 2 "h3" EmptyString] 3];
        tf_hosts := None |}).
Proof.
  apply (trylock_error_ends_acquire net.ParseIP src0
           (scripted {| grant := ["h1"];
                        lock_err := Some "context deadline exceeded";
                        unlock_err := None |})
           (params 2 3 [] false) (Table three_hosts) 7 60
           (loaded (params 2 3 [] false) three_hosts)
           [host 0 "h1" "web01.example.com";
            host 1 "h2" "db01.example.com"; host 2 "h3" EmptyString]
           fresh ["h1"] "context deadline exceeded" tt).
  - reflexivity.
  - vm_compute. discriminate.
  - reflexivity.
  - reflexivity.
Defined.

(** C4, counterexample. [TryLock] times out and reports one locked host,
    which is below the minimum of two: the host is found among the
    candidates, yet the call ends with [TryLock] as its only call to the
    locker, and the host is never unlocked. *)
Lemma timeout_partial_lock_is_discarded :
  target.FilterTargets ["h1"] (hosts (loaded (params 2 3 [] false) three_hosts))
  = Some [host 0 "h1" "web01.example.com"]
  ∧ fst (run (scripted {| grant := ["h1"];
                          lock_err := Some "context deadline exceeded";
                          unlock_err := None |})
           three_hosts (params 2 3 [] false) fresh)
    = Returned None (Some (ErrFailedToLock "context deadline exceeded"))
  ∧ unlock_count
      (calls (snd (run (scripted {| grant := ["h1"];
                                    lock_err := Some "context deadline exceeded";
                                    unlock_err := None |})
                     three_hosts (params 2 3 [] false) fresh)))
    = 0%nat.
Proof. repeat split; reflexivity. Qed.

(** A locker that keeps to the limit: two hosts for a minimum and a maximum
    of two. *)
Lemma success_bounds_witness :
  fst (run greedy three_hosts (params 2 2 [] false) fresh)
  = Returned (Some [host 0 "h1" "web01.example.com";
                    host 1 "h2" "db01.example.com"]) None
  ∧ 2 <= len [host 0 "h1" "web01.example.com"; host 1 "h2" "db01.example.com"]
    <= 2
  ∧ ∀ p, In p [host 0 "h1" "web01.example.com"; host 1 "h2" "db01.example.com"]
         → In p (hosts (loaded (params 2 2 [] false) three_hosts)).
Proof.
  split; [reflexivity|].
  destruct (success_bounds net.ParseIP src0 greedy (params 2 2 [] false)
              (Table three_hosts) 7 60 (loaded (params 2 2 [] false) three_hosts)
              fresh (snd (run greedy three_hosts (params 2 2 [] false) fresh))
              (Some [host 0 "h1" "web01.example.com";
                     host 1 "h2" "db01.example.com"])
              in_uint32_2 in_uint32_2 eq_refl eq_refl)
    as (hs & ids & s1 & _ & Htry & Hmin & Hin & _ & _ & Hmax).
  split; [|exact Hin]. split; [exact Hmin|]. apply Hmax.
  pose proof (greedy_honours_limit 7 60 hs
                (MaxNumberDevices (params 2 2 [] false)) (locker_state fresh))
    as Hlimit.
  rewrite Htry in Hlimit. apply Hlimit. discriminate.
Defined.

(** C2, counterexample. The locker reports two identifiers for a maximum of
    one: the call succeeds and returns two targets. *)
Lemma success_above_maximum :
  fst (run (scripted {| grant := ["h1"; "h2"]; lock_err := None;
                        unlock_err := None |})
         three_hosts (params 0 1 [] false) fresh)
  = Returned (Some [host 0 "h1" "web01.example.com";
                    host 1 "h2" "db01.example.com"]) None
  ∧ ¬ (len [host 0 "h1" "web01.example.com"; host 1 "h2" "db01.example.com"]
       <= MaxNumberDevices (params 0 1 [] false)).
Proof. split; [reflexivity|]. vm_compute. by intros H; apply H. Qed.

(** C5. A row whose [IPv6] field holds the IPv4 text [1.2.3.4] is loaded
    without error: the text parses to the sixteen-byte form of that IPv4
    address, [To16] of it is not nil, and the address is stored as the
    target's [PrimaryIPv6]. The same text in the [IPv4] field of a row whose
    [IPv6] field holds an IPv6 text is what the test on [To4] is for: there
    an IPv6 text in the [IPv4] field is refused. *)
Theorem ipv6_field_accepts_ipv4_text :
  net.ParseIP "1.2.3.4" = net.IPv4 1 2 3 4
  ∧ net.To4 (net.IPv4 1 2 3 4) = Some [1; 2; 3; 4]%N
  ∧ fst (run greedy [row "h1" EmptyString EmptyString "1.2.3.4"] (params 1 1 [] false) fresh)
    = Returned
        (Some [target.Ptr 0
                 {| target.ID := "h1"; target.FQDN := EmptyString;
                    target.PrimaryIPv4 := None;
                    target.PrimaryIPv6 := net.IPv4 1 2 3 4 |}])
        None
  ∧ fst (run greedy [row "h1" EmptyString "2001:db8::1" EmptyString] (params 1 1 [] false) fresh)
    = Returned None (Some (ErrInvalidIPv4 "2001:db8::1"))
  ∧ fst (run greedy [row "h1" EmptyString "999.999.999.999" EmptyString] (params 1 1 [] false) fresh)
    = Returned None (Some (ErrInvalidIPv4 "999.999.999.999")).
Proof. repeat split; reflexivity. Qed.

(** ** Further properties of [Acquire] *)

Section LoadProperties.

Variable ParseIP : string → net.IP.

Lemma fill_well_formed (data : mysqltable) (t : target.Target) :
  fill ParseIP data = inr t → well_formed t.
Proof.
  unfold fill, well_formed.
  destruct (is_empty (hostid data)) eqn:Hid; [done|].
  apply is_empty_false in Hid.
  destruct (is_empty (FQDN data)), (is_empty (IPv4 data)),
    (is_empty (IPv6 data)); cbn [negb];
    repeat (case_match; simplify_eq; try done); intros [= <-]; simpl;
    repeat match goal with
           | H : _ || _ = false |- _ => apply orb_false_iff in H as [? ?]
           end;
    repeat split; auto.
Qed.

Lemma fill_error (data : mysqltable) (e : error) :
  fill ParseIP data = inl e →
  e = ErrEmptyHostID
  ∨ (IPv4 data ≠ EmptyString ∧ e = ErrInvalidIPv4 (IPv4 data))
  ∨ (IPv6 data ≠ EmptyString ∧ e = ErrInvalidIPv6 (IPv6 data)).
Proof.
  unfold fill. destruct (is_empty (hostid data)); [intros [= <-]; by left|].
  destruct (is_empty (FQDN data)),
    (is_empty (IPv4 data)) eqn:H4, (is_empty (IPv6 data)) eqn:H6;
    cbn [negb]; apply is_empty_false in H4 || clear H4;
    apply is_empty_false in H6 || clear H6;
    repeat (case_match; simplify_eq; try done); intros [= <-]; auto.
Qed.

Lemma load_error_mono (rows rows' : list scan) (e : error) :
  (∀ r, In r rows → In r rows') → load_error rows e → load_error rows' e.
Proof.
  intros Hsub [?|[?|[(data & Hin & ? & ?)|(data & Hin & ? & ?)]]];
    unfold load_error; eauto 10.
Qed.

Lemma body_error (ap : AcquireParameters) (st : loop_state) (r : scan)
    (e : error) :
  body ParseIP ap st r = Return e → load_error [r] e.
Proof.
  destruct r as [data|]; simpl; [|intros [= <-]; by left].
  destruct (no_data data); [done|].
  destruct (fill ParseIP data) as [e'|t] eqn:Hfill.
  - intros [= <-]. apply fill_error in Hfill as [->|[[? ->]|[? ->]]].
    + right; by left.
    + right; right; left. exists data. repeat split; [by left|done].
    + right; right; right. exists data. repeat split; [by left|done].
  - destruct (collect_spec ap (target.Ptr (nalloc st) t) (hosts st))
      as (k & -> & _). done.
Qed.

Lemma rows_loop_error (ap : AcquireParameters) (st : loop_state)
    (rows : list scan) (e : error) :
  rows_loop ParseIP ap st rows = Return e → load_error rows e.
Proof.
  revert st. induction rows as [|r rows IH]; intros st; simpl; [done|].
  destruct (body ParseIP ap st r) as [st1|e1|] eqn:Hbody; [| |done].
  - intros H%IH. eapply load_error_mono; [|exact H]. intros; by right.
  - intros [= <-]. apply body_error in Hbody.
    eapply load_error_mono; [|exact Hbody]. intros r' [<-|[]]. by left.
Qed.

(** X2. A load that fails ends with the scan error, the empty-identifier
    error or an address error that carries the text of the offending field
    of a row of the table; no other error comes out of the loop, and
    [Acquire] returns that error without a call to the locker. *)
Theorem load_errors (src : nat → nat) {L : Type} (tl : target.Locker L)
    (ap : AcquireParameters) (rows : list scan) (e : error)
    (jobID : target.JobID) (timeout : target.Duration) (w : world L) :
  rows_loop ParseIP ap init rows = Return e →
  load_error rows e
  ∧ Acquire ParseIP src tl (Table rows) jobID timeout (OfAcquireParameters ap) w
    = (Returned None (Some e), w).
Proof.
  intros Hrows. split; [by eapply rows_loop_error|].
  unfold Acquire, load. by rewrite Hrows.
Qed.


(** X1. The first row that is refused decides the result: once the loop
    has ended with an error on the first rows of a table, [Acquire] returns
    nil and that error for every continuation of the table, and leaves the
    locker, the log of calls and the receiver as they were. *)
Theorem first_error_wins (src : nat → nat) {L : Type} (tl : target.Locker L)
    (ap : AcquireParameters) (rows1 rows2 : list scan) (e : error)
    (jobID : target.JobID) (timeout : target.Duration) (w : world L) :
  rows_loop ParseIP ap init rows1 = Return e →
  Acquire ParseIP src tl (Table (rows1 ++ rows2)) jobID timeout
    (OfAcquireParameters ap) w
  = (Returned None (Some e), w).
Proof.
  intros Hrows. unfold Acquire, load. by rewrite rows_loop_app, Hrows.
Qed.

(** The loop from any state: what it adds when there is no prefix. *)
Lemma rows_loop_unfiltered (ap : AcquireParameters) (rows : list scan)
    (st st' : loop_state) :
  HostPrefixes ap = [] →
  rows_loop ParseIP ap st rows = Next st' →
  ∃ ts, Forall2 (fun data t => fill ParseIP data = inr t) (data_rows rows) ts
    ∧ hosts st' = hosts st ++ imap (fun i t => target.Ptr (nalloc st + i) t) ts
    ∧ nalloc st' = (nalloc st + length ts)%nat.
Proof.
  intros Hps. revert st. induction rows as [|[data|] rows IH]; intros st.
  - intros [= <-]. exists []. simpl. rewrite app_nil_r.
    repeat split; [constructor|lia].
  - cbn [rows_loop body data_rows]. destruct (no_data data) eqn:Hdata.
    { apply IH. }
    destruct (fill ParseIP data) as [e|t] eqn:Hfill; [done|].
    destruct (body_valid ParseIP ap st data t Hdata Hfill)
      as (k & Hbody & Hk & _).
    simpl in Hbody. rewrite Hdata, Hfill in Hbody.
    destruct (collect ap _ (hosts st)) as [hs| |]; [|done..].
    injection Hbody as ->. rewrite (Hk Hps).
    intros (ts & Hts & Hhosts & Hn)%IH. simpl in Hhosts, Hn.
    exists (t :: ts). split; [by constructor|]. split.
    + rewrite Hhosts, <-app_assoc. simpl. rewrite Nat.add_0_r. do 2 f_equal.
      apply imap_ext. intros i x _. simpl. f_equal. lia.
    + simpl. lia.
  - done.
Qed.

(** X3. Without host prefixes, a table that loads gives one candidate per
    row with data, in table order: the hosts are the targets of those
    rows, the [i]-th of them at address [i]. *)
Theorem unfiltered_hosts_follow_rows (ap : AcquireParameters)
    (rows : list scan) (st : loop_state) :
  HostPrefixes ap = [] →
  rows_loop ParseIP ap init rows = Next st →
  ∃ ts, Forall2 (fun data t => fill ParseIP data = inr t) (data_rows rows) ts
    ∧ hosts st = imap target.Ptr ts
    ∧ map (fun p => target.ID (target.deref p)) (hosts st)
      = map hostid (data_rows rows)
    ∧ length (hosts st) = length (data_rows rows).
Proof.
  intros Hps Hrows.
  destruct (rows_loop_unfiltered ap rows init st Hps Hrows)
    as (ts & Hts & Hhosts & _).
  simpl in Hhosts. exists ts. split; [done|]. split; [done|].
  rewrite Hhosts. split.
  - clear Hhosts Hrows. generalize 0%nat as a.
    assert (∀ (f : nat → target.Target → target.ptr) ,
              (∀ i t, target.deref (f i t) = t) →
              map (fun p => target.ID (target.deref p)) (imap f ts)
              = map hostid (data_rows rows)) as Hgen.
    { induction Hts as [|data t ds ts' Hfill _ IH]; intros f Hf; [done|].
      simpl. rewrite Hf. apply fill_fields in Hfill as (_ & -> & _).
      f_equal. apply IH. intros; apply Hf. }
    intros _. by apply Hgen.
  - rewrite length_imap. symmetry. by eapply Forall2_length.
Qed.

Lemma collect_passes_filter (ap : AcquireParameters) (p : target.ptr)
    (hs hs' : list target.ptr) :
  HostPrefixes ap ≠ [] →
  Forall (fun q => passes_filter (HostPrefixes ap) (target.deref q)) hs →
  collect ap p hs = Next hs' →
  Forall (fun q => passes_filter (HostPrefixes ap) (target.deref q)) hs'.
Proof.
  intros Hps Hhs.
  destruct (collect_spec ap p hs) as (k & -> & _ & H0 & Hk).
  intros [= <-]. apply Forall_app. split; [done|].
  destruct (decide (target.FQDN (target.deref p) = EmptyString)) as [He|Hne].
  { rewrite (H0 Hps He). constructor. }
  destruct (Hk Hps Hne) as (label & Hlabel & ->).
  destruct (matching label (HostPrefixes ap)) as [|hp m] eqn:Hm; [constructor|].
  assert (In hp (matching label (HostPrefixes ap))) as Hin.
  { rewrite Hm. by left. }
  apply matching_In in Hin as [Hin [r Hr]].
  apply Forall_replicate. split; [done|]. by exists label, hp, r.
Qed.

(** X4. With host prefixes, every candidate of a table that loads has a
    name, and the first label of the name starts with one of the prefixes:
    no target gets into [hosts] past the filter. *)
Theorem filtered_hosts_match (ap : AcquireParameters) (rows : list scan)
    (st : loop_state) :
  HostPrefixes ap ≠ [] →
  rows_loop ParseIP ap init rows = Next st →
  Forall (fun q => passes_filter (HostPrefixes ap) (target.deref q)) (hosts st).
Proof.
  intros Hps.
  assert (∀ st0, Forall (fun q => passes_filter (HostPrefixes ap)
                                    (target.deref q)) (hosts st0) →
            rows_loop ParseIP ap st0 rows = Next st →
            Forall (fun q => passes_filter (HostPrefixes ap) (target.deref q))
              (hosts st)) as Hgen.
  { induction rows as [|[data|] rows IH]; intros st0 Hst0.
    - by intros [= <-].
    - cbn [rows_loop body]. destruct (no_data data); [by apply IH|].
      destruct (fill ParseIP data) as [e|t]; [done|].
      destruct (collect ap _ (hosts st0)) as [hs| |] eqn:Hcollect; [|done..].
      apply IH. simpl. by eapply collect_passes_filter.
    - done. }
  apply Hgen. constructor.
Qed.

Lemma collect_new (ap : AcquireParameters) (p : target.ptr)
    (hs hs' : list target.ptr) (P : target.ptr → Prop) :
  Forall P hs → P p → collect ap p hs = Next hs' → Forall P hs'.
Proof.
  intros Hhs Hp. destruct (collect_spec ap p hs) as (k & -> & _).
  intros [= <-]. apply Forall_app. split; [done|]. by apply Forall_replicate.
Qed.

(** X5. Every candidate of a table that loads is the target of one of its
    rows, built by the loop from that row: it has the row's identifier,
    which is not empty, the row's name, and addresses that are nil or pass
    the test the loop makes on them. *)
Theorem loaded_targets_valid (ap : AcquireParameters) (rows : list scan)
    (st : loop_state) :
  rows_loop ParseIP ap init rows = Next st →
  Forall (fun q =>
            well_formed (target.deref q)
            ∧ ∃ data, In (ScanOK data) rows
                ∧ fill ParseIP data = inr (target.deref q)
                ∧ target.ID (target.deref q) = hostid data
                ∧ target.FQDN (target.deref q) = FQDN data)
    (hosts st).
Proof.
  set (P rs := fun q : target.ptr =>
         well_formed (target.deref q)
         ∧ ∃ data, In (ScanOK data) rs
             ∧ fill ParseIP data = inr (target.deref q)
             ∧ target.ID (target.deref q) = hostid data
             ∧ target.FQDN (target.deref q) = FQDN data).
  assert (∀ rs rs' q, (∀ r, In r rs → In r rs') → P rs q → P rs' q) as Hmono.
  { intros rs rs' q Hsub [Hwf (data & Hin & H)]. split; [done|].
    exists data. split; [by apply Hsub|done]. }
  assert (∀ done_rows st0,
            Forall (P (done_rows ++ rows)) (hosts st0) →
            rows_loop ParseIP ap st0 rows = Next st →
            Forall (P (done_rows ++ rows)) (hosts st)) as Hgen.
  { induction rows as [|[data|] rows IH]; intros done_rows st0 Hst0.
    - by intros [= <-].
    - cbn [rows_loop body].
      replace (done_rows ++ ScanOK data :: rows)
        with ((done_rows ++ [ScanOK data]) ++ rows) in *
        by (by rewrite <-app_assoc).
      destruct (no_data data); [by apply IH|].
      destruct (fill ParseIP data) as [e|t] eqn:Hfill; [done|].
      destruct (collect ap _ (hosts st0)) as [hs| |] eqn:Hcollect; [|done..].
      apply IH. simpl. eapply collect_new; [exact Hst0| |exact Hcollect].
      split; [by eapply fill_well_formed|]. exists data. simpl.
      pose proof (fill_fields ParseIP _ _ Hfill) as (_ & ? & ?).
      repeat split; try done. apply in_app_iff. left. apply in_app_iff.
      right. by left.
    - done. }
  intros Hrows. apply (Hgen [] init); [constructor|done].
Qed.

End LoadProperties.

Section LockProperties.

Variable ParseIP : string → net.IP.
Variable src : nat → nat.
Context {L : Type} (tl : target.Locker L).

(** X6. When the rows load and the pre-check passes, [TryLock] is called
    with every candidate: the slice it receives is a permutation of
    [hosts], and [hosts] itself when [Shuffle] is off; the limit it
    receives is [MaxNumberDevices], and it is the first call of [Acquire]
    to the locker and its only call of [TryLock]. *)
Theorem trylock_gets_all_candidates (ap : AcquireParameters) (db : database)
    (jobID : target.JobID) (timeout : target.Duration) (st : loop_state)
    (w : world L) :
  in_uint32 (MaxNumberDevices ap) →
  load ParseIP ap db = Next st →
  MinNumberDevices ap <= uint32 (len (hosts st)) →
  ∃ hs rest,
    calls (snd (Acquire ParseIP src tl db jobID timeout
                  (OfAcquireParameters ap) w))
    = calls w ++ CallTryLock jobID timeout hs (MaxNumberDevices ap) :: rest
    ∧ hs ≡ₚ hosts st
    ∧ (Shuffle ap = false → hs = hosts st)
    ∧ trylock_count rest = 0%nat.
Proof.
  intros Hmax Hload Hmin.
  destruct (shuffle_Some src ap (hosts st)) as (hs & Hshuffle & Hperm).
  destruct (lock_calls tl ap jobID timeout hs w) as (rest & Hcalls & Hrest).
  exists hs, rest.
  rewrite (Acquire_reaches_lock ParseIP src tl _ _ _ _ _ _ _ Hload Hmin Hshuffle).
  rewrite Hcalls, (uint_small _ Hmax). repeat split; try done.
  intros Hoff. unfold shuffle in Hshuffle. rewrite Hoff in Hshuffle.
  by injection Hshuffle.
Qed.

Lemma lock_discipline (ap : AcquireParameters) (jobID : target.JobID)
    (timeout : target.Duration) (hs : list target.ptr) (w : world L) :
  ∃ new, calls (snd (lock tl ap jobID timeout hs w)) = calls w ++ new
    ∧ ((∃ limit, new = [CallTryLock jobID timeout hs limit])
       ∨ (∃ limit locked,
            new = [CallTryLock jobID timeout hs limit; CallUnlock jobID locked]
            ∧ locked ≠ []
            ∧ (fst (lock tl ap jobID timeout hs w)
               = Returned None (Some ErrCantUnlock)
               ∨ fst (lock tl ap jobID timeout hs w)
                 = Returned None (Some ErrCantLockEnough)))).
Proof.
  unfold lock.
  destruct (target.TryLock _ _ _ _ _ _) as [[ids err] s1].
  destruct err; [eexists; split; [done|left; eauto]|].
  destruct (target.FilterTargets ids hs) as [locked|];
    [|eexists; split; [done|left; eauto]].
  destruct (_ <=? _); [eexists; split; [done|left; eauto]|].
  destruct (0 <? len locked) eqn:Hpos; [|eexists; split; [done|left; eauto]].
  destruct (target.Unlock tl jobID locked s1) as [uerr s2].
  exists [CallTryLock jobID timeout hs (uint (MaxNumberDevices ap));
          CallUnlock jobID locked].
  assert (locked ≠ []) as Hne.
  { intros ->. by apply Z.ltb_lt in Hpos. }
  destruct uerr; simpl; rewrite <-app_assoc;
    (split; [done|right; eexists _, _; split; [done|split; [done|]]]); auto.
Qed.

(** X7. The calls to the locker. Whatever its arguments, [Acquire] makes no
    call, or one call of [TryLock], or one call of [TryLock] followed by one
    call of [Unlock] for the same job and a non-empty slice of targets; in
    the last case it returns the cannot-unlock or the cannot-lock-enough
    error. *)
Theorem call_discipline (db : database) (jobID : target.JobID)
    (timeout : target.Duration) (parameters : interface) (w : world L) :
  ∃ new,
    calls (snd (Acquire ParseIP src tl db jobID timeout parameters w))
    = calls w ++ new
    ∧ (new = []
       ∨ (∃ hs limit, new = [CallTryLock jobID timeout hs limit])
       ∨ (∃ hs limit locked,
            new = [CallTryLock jobID timeout hs limit; CallUnlock jobID locked]
            ∧ locked ≠ []
            ∧ (fst (Acquire ParseIP src tl db jobID timeout parameters w)
               = Returned None (Some ErrCantUnlock)
               ∨ fst (Acquire ParseIP src tl db jobID timeout parameters w)
                 = Returned None (Some ErrCantLockEnough)))).
Proof.
  unfold Acquire.
  destruct parameters as [ap|ty]; [|exists []; by rewrite app_nil_r; auto].
  destruct (load ParseIP ap db) as [st| |];
    [|exists []; by rewrite app_nil_r; auto..].
  destruct (_ <? _); [exists []; by rewrite app_nil_r; auto|].
  destruct (shuffle src ap (hosts st)) as [hs|];
    [|exists []; by rewrite app_nil_r; auto].
  destruct (lock_discipline ap jobID timeout hs w) as (new & Hcalls & Hnew).
  exists new. split; [done|]. right.
  destruct Hnew as [[limit ->]|(limit & locked & -> & Hne & Hout)]; [left|right];
    eauto 10.
Qed.

(** X8. The receiver. [Acquire] assigns [tf.hosts] only when it succeeds:
    when it returns an error or panics, [tf.hosts] is what it was, and when
    it made no call to the locker the locker's state is what it was. *)
Theorem failure_keeps_receiver (db : database) (jobID : target.JobID)
    (timeout : target.Duration) (parameters : interface) (w w' : world L)
    (out : outcome) :
  Acquire ParseIP src tl db jobID timeout parameters w = (out, w') →
  (∀ result, out ≠ Returned result None) →
  tf_hosts w' = tf_hosts w
  ∧ (calls w' = calls w → locker_state w' = locker_state w).
Proof.
  unfold Acquire, lock, log_call. intros H Hout.
  repeat case_match; simplify_eq; simpl; try done;
    try (by destruct (Hout _ eq_refl));
    (split; [done|]); intros Hcalls;
    apply (f_equal length) in Hcalls; rewrite ?length_app in Hcalls;
    simpl in Hcalls; lia.
Qed.

(** X9. The way to success. When the rows load, the pre-check passes,
    [TryLock] returns without error and the targets found for its
    identifiers are at least [MinNumberDevices], [Acquire] returns these
    targets and no error, stores them in [tf.hosts], and its call of
    [TryLock] is its only call to the locker; with a minimum of zero this
    includes the empty slice. *)
Theorem enough_locked_succeeds (ap : AcquireParameters) (db : database)
    (jobID : target.JobID) (timeout : target.Duration) (st : loop_state)
    (hs locked : list target.ptr) (w : world L) (ids : list string) (s1 : L) :
  in_uint32 (MinNumberDevices ap) →
  load ParseIP ap db = Next st →
  MinNumberDevices ap <= uint32 (len (hosts st)) →
  shuffle src ap (hosts st) = Some hs →
  target.TryLock tl jobID timeout hs (uint (MaxNumberDevices ap))
    (locker_state w) = ((ids, None), s1) →
  target.FilterTargets ids hs = Some locked →
  MinNumberDevices ap <= len locked →
  Acquire ParseIP src tl db jobID timeout (OfAcquireParameters ap) w
  = (Returned (Some locked) None,
     {| locker_state := s1;
        calls := calls w
                 ++ [CallTryLock jobID timeout hs (uint (MaxNumberDevices ap))];
        tf_hosts := Some locked |}).
Proof.
  intros Hin Hload Hmin Hshuffle Htry Hfilter Hle.
  rewrite (Acquire_reaches_lock ParseIP src tl _ _ _ _ _ _ _ Hload Hmin Hshuffle).
  unfold lock. rewrite Htry, Hfilter, (int_small _ Hin).
  by apply Z.leb_le in Hle as ->.
Qed.

(** X10. Nothing locked. When [TryLock] returns without error and no
    target is found for its identifiers while [MinNumberDevices] is
    positive, [Acquire] returns the cannot-lock-enough error and does not
    call [Unlock]. *)
Theorem nothing_locked_no_unlock (ap : AcquireParameters) (db : database)
    (jobID : target.JobID) (timeout : target.Duration) (st : loop_state)
    (hs : list target.ptr) (w : world L) (ids : list string) (s1 : L) :
  in_uint32 (MinNumberDevices ap) →
  0 < MinNumberDevices ap →
  load ParseIP ap db = Next st →
  MinNumberDevices ap <= uint32 (len (hosts st)) →
  shuffle src ap (hosts st) = Some hs →
  target.TryLock tl jobID timeout hs (uint (MaxNumberDevices ap))
    (locker_state w) = ((ids, None), s1) →
  target.FilterTargets ids hs = Some [] →
  Acquire ParseIP src tl db jobID timeout (OfAcquireParameters ap) w
  = (Returned None (Some ErrCantLockEnough),
     {| locker_state := s1;
        calls := calls w
                 ++ [CallTryLock jobID timeout hs (uint (MaxNumberDevices ap))];
        tf_hosts := tf_hosts w |}).
Proof.
  intros Hin Hpos Hload Hmin Hshuffle Htry Hfilter.
  rewrite (Acquire_reaches_lock ParseIP src tl _ _ _ _ _ _ _ Hload Hmin Hshuffle).
  unfold lock. rewrite Htry, Hfilter, (int_small _ Hin).
  change (len (@nil target.ptr)) with 0.
  by apply Z.leb_gt in Hpos as ->.
Qed.

(** X11. An identifier that is not a candidate's. When [TryLock] returns
    without error and the mapping of its identifiers back to candidates
    fails, [Acquire] returns the cannot-find error; it does not call
    [Unlock], whatever the locker has locked. *)
Theorem unknown_identifier_no_unlock (ap : AcquireParameters) (db : database)
    (jobID : target.JobID) (timeout : target.Duration) (st : loop_state)
    (hs : list target.ptr) (w : world L) (ids : list string) (s1 : L) :
  load ParseIP ap db = Next st →
  MinNumberDevices ap <= uint32 (len (hosts st)) →
  shuffle src ap (hosts st) = Some hs →
  target.TryLock tl jobID timeout hs (uint (MaxNumberDevices ap))
    (locker_state w) = ((ids, None), s1) →
  target.FilterTargets ids hs = None →
  Acquire ParseIP src tl db jobID timeout (OfAcquireParameters ap) w
  = (Returned None (Some ErrLockedNotFound),
     {| locker_state := s1;
        calls := calls w
                 ++ [CallTryLock jobID timeout hs (uint (MaxNumberDevices ap))];
        tf_hosts := tf_hosts w |}).
Proof.
  intros Hload Hmin Hshuffle Htry Hfilter.
  rewrite (Acquire_reaches_lock ParseIP src tl _ _ _ _ _ _ _ Hload Hmin Hshuffle).
  unfold lock. by rewrite Htry, Hfilter.
Qed.

End LockProperties.

(** ** Validation of the parameters *)

Section ValidateProperties.

Variable TrimSpace : string → string.
Variable UnmarshalAcquire : string → target.error + AcquireParameters.
Variable UnmarshalRelease : string → option target.error.

Lemma forallb_false_In {A : Type} (f : A → bool) (l : list A) :
  forallb f l = false → ∃ x, In x l ∧ f x = false.
Proof.
  induction l as [|x l IH]; simpl; [done|].
  destruct (f x) eqn:Hx; simpl.
  - intros (y & Hin & Hy)%IH. exists y. split; [by right|done].
  - intros _. exists x. split; [by left|done].
Qed.

(** The loop over the prefixes, from index [idx] on. *)
Lemma range_trim_spec (done todo : list string) :
  range_trim TrimSpace (length todo) (length done) (done ++ todo)
  = if forallb (fun hp => negb (is_empty (TrimSpace hp))) todo
    then Some (done ++ map TrimSpace todo)
    else None.
Proof.
  revert done. induction todo as [|hp todo IH]; intros done; simpl.
  - by rewrite app_nil_r.
  - rewrite lookup_app_r, Nat.sub_diag by lia. simpl.
    destruct (is_empty (TrimSpace hp)); simpl; [done|].
    rewrite insert_app_r_alt, Nat.sub_diag by lia. simpl.
    specialize (IH (done ++ [TrimSpace hp])).
    rewrite length_app, <-!app_assoc in IH. simpl in IH.
    by rewrite Nat.add_1_r in IH.
Qed.

(** X13. [ValidateAcquireParameters] returns nil and an error exactly when
    the text does not decode, in which case the error is the decoder's, or
    when some host prefix is empty once trimmed. Otherwise it returns the
    decoded parameters with every host prefix trimmed, in the same order
    and none of them empty, and the other three fields as decoded: the two
    numbers are not compared. *)
Theorem validate_acquire_parameters (params : string) :
  match UnmarshalAcquire params with
  | inl err =>
      ValidateAcquireParameters TrimSpace UnmarshalAcquire params
      = (None, Some (ErrUnmarshal err))
  | inr ap =>
      (Exists (fun hp => TrimSpace hp = EmptyString) (HostPrefixes ap)
       ∧ ValidateAcquireParameters TrimSpace UnmarshalAcquire params
         = (None, Some ErrEmptyHostPrefix))
      ∨ (Forall (fun hp => TrimSpace hp ≠ EmptyString) (HostPrefixes ap)
         ∧ ValidateAcquireParameters TrimSpace UnmarshalAcquire params
           = (Some (OfAcquireParameters
                      {| MinNumberDevices := MinNumberDevices ap;
                         MaxNumberDevices := MaxNumberDevices ap;
                         HostPrefixes := map TrimSpace (HostPrefixes ap);
                         Shuffle := Shuffle ap |}),
              None))
  end.
Proof.
  unfold ValidateAcquireParameters.
  destruct (UnmarshalAcquire params) as [err|ap]; [done|].
  pose proof (range_trim_spec [] (HostPrefixes ap)) as Hloop.
  simpl in Hloop. rewrite Hloop.
  destruct (forallb _ (HostPrefixes ap)) eqn:Hall.
  - right. split; [|done]. rewrite forallb_forall in Hall.
    apply List.Forall_forall. intros hp Hin%Hall.
    by apply negb_true_iff, is_empty_false in Hin.
  - left. split; [|done]. apply List.Exists_exists.
    apply forallb_false_In in Hall as (hp & Hin & Hhp).
    exists hp. split; [done|]. by apply negb_false_iff, is_empty_true in Hhp.
Qed.


Lemma Acquire_expects (ParseIP : string → net.IP) (src : nat → nat)
    {L : Type} (tl : target.Locker L) (db : database) (jobID : target.JobID)
    (timeout : target.Duration) (ap : AcquireParameters) (w : world L)
    (got : string) :
  fst (Acquire ParseIP src tl db jobID timeout (OfAcquireParameters ap) w)
  ≠ Returned None (Some (ErrExpects got)).
Proof.
  unfold Acquire. destruct (load ParseIP ap db) as [st|e|] eqn:Hload; [| |done].
  - destruct (_ <? _); [done|].
    destruct (shuffle src ap (hosts st)); [|done].
    unfold lock. repeat case_match; by simplify_eq.
  - destruct db as [| |rows]; try done. simpl in Hload.
    apply rows_loop_error in Hload as [->|[->|[(? & _ & _ & ->)|(? & _ & _ & ->)]]];
      done.
Qed.

(** X14. From validation to [Acquire]. The value that a successful
    [ValidateAcquireParameters] returns passes the type assertion of
    [Acquire]: the call never ends with the expects-parameters error. The
    value that a successful [ValidateReleaseParameters] returns does not:
    [Acquire] returns that error, naming the type, before it touches the
    database or the locker. *)
Theorem validated_parameters_and_acquire (ParseIP : string → net.IP)
    (src : nat → nat) {L : Type} (tl : target.Locker L) (db : database)
    (jobID : target.JobID) (timeout : target.Duration) (w : world L)
    (params : string) (v : interface) :
  (ValidateAcquireParameters TrimSpace UnmarshalAcquire params = (Some v, None) →
   ∀ got,
     fst (Acquire ParseIP src tl db jobID timeout v w)
     ≠ Returned None (Some (ErrExpects got)))
  ∧ (ValidateReleaseParameters UnmarshalRelease params = (Some v, None) →
     Acquire ParseIP src tl db jobID timeout v w
     = (Returned None (Some (ErrExpects ReleaseParametersType)), w)).
Proof.
  split.
  - unfold ValidateAcquireParameters. intros H got.
    repeat case_match; simplify_eq. apply Acquire_expects.
  - unfold ValidateReleaseParameters. intros H.
    by repeat case_match; simplify_eq.
Qed.

End ValidateProperties.

(** ** The reporter [postdone] *)

Section ReporterProperties.

Variable Unmarshal : string → target.error + postdone.FinalParameters.
Variable ParseRequestURI : string → option target.error.
Variable Marshal : list (string * string) → string * option target.error.
Variable Post : postdone.request → target.error + postdone.response.

(** X15. [FinalReport] never returns an error and never returns a report
    other than the empty string. Its first result tells whether
    [http.Post] returned a response: it is false exactly when the request
    itself failed, and then the failure is only logged. *)
Theorem final_report_result (parameters : postdone.interface)
    (w w' : postdone.world) (ok : bool) (report : postdone.interface)
    (err : option target.error) :
  postdone.FinalReport Marshal Post parameters w
  = (postdone.Reported ok report err, w') →
  err = None
  ∧ report = postdone.OfString EmptyString
  ∧ ∃ fp, parameters = postdone.OfFinalParameters fp
      ∧ (ok = true ↔ ∃ resp, Post (postdone.request_for Marshal fp) = inr resp)
      ∧ (ok = false →
         last (postdone.logged w')
         = Some (postdone.Line postdone.ErrorLevel
                   "Could not post data to API." None)).
Proof.
  unfold postdone.FinalReport, postdone.request_for.
  destruct parameters as [fp|s|ty]; [|done..].
  destruct (Marshal _) as [json_data merr]. simpl.
  destruct (Post _) as [e|resp] eqn:HPost; intros [= <- <- <- <-];
    (split; [done|]); (split; [done|]); exists fp; (split; [done|]); split.
  - split; [done|]. intros [resp Hresp]. congruence.
  - intros _. simpl. by rewrite last_snoc.
  - split; [by eauto|done].
  - done.
Qed.

Lemma status_line_level (statuscode : Z) :
  postdone.lvl (postdone.status_line statuscode) = postdone.InfoLevel
  ↔ statuscode = 200.
Proof.
  unfold postdone.status_line.
  destruct (statuscode =? 200) eqn:H200; [by apply Z.eqb_eq in H200|].
  apply Z.eqb_neq in H200. repeat case_match; simpl; split; done.
Qed.

(** X16. The status code of the response decides nothing but the line that
    is logged: for every response, whatever its status code, [FinalReport]
    returns true, the empty report and no error; the line it logs is at
    the info level for status 200 and at the error level for every other
    status. *)
Theorem final_report_status (fp : postdone.FinalParameters)
    (w : postdone.world) (resp : postdone.response) :
  Post (postdone.request_for Marshal fp) = inr resp →
  ∃ w', postdone.FinalReport Marshal Post (postdone.OfFinalParameters fp) w
        = (postdone.Reported true (postdone.OfString EmptyString) None, w')
    ∧ last (postdone.logged w')
      = Some (postdone.status_line (postdone.StatusCode resp))
    ∧ (postdone.lvl (postdone.status_line (postdone.StatusCode resp))
       = postdone.ErrorLevel
       ↔ postdone.StatusCode resp ≠ 200).
Proof.
  unfold postdone.FinalReport, postdone.request_for.
  destruct (Marshal _) as [json_data merr]. simpl. intros ->.
  eexists. split; [done|]. split.
  - simpl. by rewrite last_snoc.
  - rewrite <-status_line_level.
    by destruct (postdone.lvl (postdone.status_line (postdone.StatusCode resp))).
Qed.

(** X17. [ValidateFinalParameters] returns nil exactly when the text does
    not decode, and then with the decoder's error. When the text decodes it
    returns the decoded parameters in every case; it returns them together
    with an error, and logs one line at the error level, exactly when
    [ApiURI] is refused by [url.ParseRequestURI]. *)
Theorem validate_final_parameters (params : string) (w : postdone.world) :
  match Unmarshal params with
  | inl err =>
      postdone.ValidateFinalParameters Unmarshal ParseRequestURI params w
      = ((None, Some err), w)
  | inr fp =>
      ∃ w', postdone.ValidateFinalParameters Unmarshal ParseRequestURI params w
            = ((Some (postdone.OfFinalParameters fp),
                ParseRequestURI (postdone.ApiURI fp)), w')
        ∧ postdone.posted w' = postdone.posted w
        ∧ (ParseRequestURI (postdone.ApiURI fp) = None → w' = w)
        ∧ (ParseRequestURI (postdone.ApiURI fp) ≠ None →
           ∃ l, postdone.logged w' = postdone.logged w ++ [l]
             ∧ postdone.lvl l = postdone.ErrorLevel)
  end.
Proof.
  unfold postdone.ValidateFinalParameters.
  destruct (Unmarshal params) as [err|fp]; [done|].
  destruct (ParseRequestURI (postdone.ApiURI fp)) as [err|].
  - eexists. split; [done|]. repeat split; [done|]. intros _. by eexists.
  - exists w. by repeat split.
Qed.

(** X18. From validation to the final report. Whenever
    [ValidateFinalParameters] returns a value, with or without an error,
    [FinalReport] on that value does not panic and calls [http.Post]
    exactly once, with the decoded [ApiURI] as it is, with the JSON content
    type and with the marshalled status as the body: it does not look at
    the URI again, so a URI that validation refused is passed to
    [http.Post] all the same, and what comes of it is up to [http.Post].
    On any value that is not final parameters [FinalReport] panics before
    it calls [http.Post]. *)
Theorem validated_final_report (params : string) (w0 w1 w : postdone.world)
    (v : postdone.interface) (verr : option target.error) :
  (postdone.ValidateFinalParameters Unmarshal ParseRequestURI params w0
   = ((Some v, verr), w1) →
   ∃ fp, Unmarshal params = inr fp
     ∧ fst (postdone.FinalReport Marshal Post v w) ≠ postdone.Panicked
     ∧ postdone.posted (snd (postdone.FinalReport Marshal Post v w))
       = postdone.posted w ++ [postdone.request_for Marshal fp])
  ∧ ((∀ fp, v ≠ postdone.OfFinalParameters fp) →
     postdone.FinalReport Marshal Post v w = (postdone.Panicked, w)).
Proof.
  split.
  - unfold postdone.ValidateFinalParameters.
    destruct (Unmarshal params) as [err|fp]; [done|]. intros H.
    assert (v = postdone.OfFinalParameters fp) as ->.
    { by repeat case_match; simplify_eq. }
    exists fp. split; [done|]. unfold postdone.FinalReport, postdone.request_for.
    destruct (Marshal _) as [json_data merr]. simpl.
    destruct (Post _); simpl; split; try done; by destruct merr.
  - intros Hv. destruct v as [fp|s|ty]; [by destruct (Hv fp)|done..].
Qed.

End ReporterProperties.

(** ** The command [contest] *)

Lemma append_empty_r (s : string) : s +:+ EmptyString = s.
Proof. induction s as [|c s IH]; [done|]. by rewrite append_cons, IH. Qed.

Lemma HasPrefix_cons_ne (c d : ascii) (s old : string) :
  Ascii.eqb c d = false → strings.HasPrefix (String c s) (String d old) = false.
Proof.
  intros Hne. destruct (strings.HasPrefix _ _) eqn:H; [|done].
  apply HasPrefix_spec in H as [r H]. rewrite append_cons in H.
  injection H as -> _. by rewrite Ascii.eqb_refl in Hne.
Qed.

(** A string that lacks the first byte of [old] has no occurrence of it. *)
Lemma Replace_free_of (c : ascii) (s old new : string) :
  free_of c s = true → main.Replace s (String c old) new = s.
Proof.
  unfold main.Replace. induction s as [|d s IH]; [done|]. simpl.
  intros [Hd Hs]%andb_true_iff. apply negb_true_iff in Hd.
  rewrite (HasPrefix_cons_ne _ _ _ _ Hd). by rewrite IH.
Qed.

Lemma Replace_from_skip (o rest old new : string) :
  main.Replace_from (String.length o) (o +:+ rest) old new
  = main.Replace_from 0 rest old new.
Proof.
  induction o as [|c o IH]; [by rewrite append_nil|].
  by rewrite append_cons.
Qed.

(** An occurrence at the front is replaced, and the search goes on behind
    it. *)
Lemma Replace_head (c : ascii) (o rest new : string) :
  main.Replace (String c o +:+ rest) (String c o) new
  = new +:+ main.Replace rest (String c o) new.
Proof.
  unfold main.Replace. rewrite append_cons. cbn [main.Replace_from].
  assert (strings.HasPrefix (String c (o +:+ rest)) (String c o) = true) as ->.
  { apply HasPrefix_spec. exists rest. by rewrite append_cons. }
  cbn [String.length]. rewrite Nat.sub_succ, Nat.sub_0_r.
  by rewrite Replace_from_skip.
Qed.

Lemma fold_Replace_free (flags : list main.Flag) (arg : string) :
  free_of main.percent arg = true →
  fold_left (fun arg f => main.Replace arg (main.macro (main.Name f))
                            (main.Value f)) flags arg
  = arg.
Proof.
  intros Hfree. induction flags as [|f flags IH]; simpl; [done|].
  unfold main.macro at 2. by rewrite Replace_free_of.
Qed.

Lemma Replace_macro (name value : string) :
  main.Replace (main.macro name) (main.macro name) value = value.
Proof.
  unfold main.macro.
  rewrite <-(append_empty_r (String main.percent _)) at 1.
  rewrite Replace_head. unfold main.Replace. simpl. apply append_empty_r.
Qed.

(** X19. An argument without a percent sign has no macro in it:
    [expandArgument] returns it unchanged, whatever flags are defined and
    whatever their values. *)
Theorem expand_without_percent (flags : list main.Flag) (arg : string) :
  free_of main.percent arg = true → main.expandArgument flags arg = arg.
Proof.
  intros Hfree. unfold main.expandArgument. by apply fold_Replace_free.
Qed.

(** X20. An argument that is the macro of the flag visited first expands to
    the value of that flag, for a value without a percent sign: the flags
    visited later find nothing to expand in it. *)
Theorem expand_first_flag (f : main.Flag) (flags : list main.Flag) :
  free_of main.percent (main.Value f) = true →
  main.expandArgument (f :: flags) (main.macro (main.Name f)) = main.Value f.
Proof.
  intros Hfree. unfold main.expandArgument. cbn [fold_left].
  rewrite Replace_macro. by apply fold_Replace_free.
Qed.

Section RegistryProperties.

Variables factory FactoryType : Type.
Variable Factory : FactoryType → string → option factory * option target.error.
Variable Factories : FactoryType → list factory.
Variable UniqueImplementationName : factory → string.

Lemma cut_spec (s : string) (sep : ascii) :
  match main.cut s sep with
  | Some (before, after) =>
      free_of sep before = true ∧ s = before +:+ String sep after
  | None => free_of sep s = true
  end.
Proof.
  induction s as [|c s IH]; simpl; [done|].
  destruct (Ascii.eqb c sep) eqn:Hc.
  - apply Ascii.eqb_eq in Hc as ->. by rewrite append_nil.
  - destruct (main.cut s sep) as [[before after]|].
    + destruct IH as [Hfree ->]. cbn [free_of]. rewrite Hc, Hfree.
      by rewrite append_cons.
    + exact IH.
Qed.

(** X21. [parseFactoryInfo] cuts the flag at its first colon. The name it
    looks up is the text before that colon, or the whole flag when there is
    none, and so has no colon; the argument is the expanded text behind the
    colon, and empty when there is no colon. It returns the factory, the
    name and the argument when the registry has a factory for the name and
    reports no error; in every other case it ends the process, naming the
    implementation and the known ones. It never indexes out of range. *)
Theorem parse_factory_info (flags : list main.Flag) (factoryType : FactoryType)
    (flagValue : string) :
  ∃ name argument,
    free_of net.colon name = true
    ∧ ((flagValue = name ∧ argument = EmptyString)
       ∨ ∃ rest, flagValue = name +:+ String net.colon rest
           ∧ argument = main.expandArgument flags rest)
    ∧ main.parseFactoryInfo factory FactoryType Factory Factories
        UniqueImplementationName flags factoryType flagValue
      = match Factory factoryType name with
        | (Some f, None) => main.Returns (f, name, argument)
        | _ =>
            main.Fatal name
              (main.Join (map UniqueImplementationName (Factories factoryType))
                 ", ")
        end.
Proof.
  unfold main.parseFactoryInfo, main.SplitN2.
  pose proof (cut_spec flagValue net.colon) as Hcut.
  destruct (main.cut flagValue net.colon) as [[before after]|].
  - destruct Hcut as [Hfree ->].
    exists before, (main.expandArgument flags after).
    split; [done|]. split; [right; by exists after|done].
  - exists flagValue, EmptyString. split; [done|]. split; [by left|done].
Qed.

(** X22. The default locker flag. With the two flags that the command
    defines, [dbURI] and [targetLocker], visited in that order, the default
    value of [targetLocker] names the implementation [MySQL] and expands to
    the value of [dbURI], for every such value without a percent sign and
    whatever the value of [targetLocker]. *)
Theorem default_target_locker (factoryType : FactoryType)
    (dbURI targetLocker : string) (f : factory) :
  free_of main.percent dbURI = true →
  Factory factoryType "MySQL" = (Some f, None) →
  main.parseFactoryInfo factory FactoryType Factory Factories
    UniqueImplementationName
    [{| main.Name := "dbURI"; main.Value := dbURI |};
     {| main.Name := "targetLocker"; main.Value := targetLocker |}]
    factoryType main.defaultTargetLocker
  = main.Returns (f, "MySQL", dbURI).
Proof.
  intros Hfree Hfactory. unfold main.parseFactoryInfo.
  change (main.SplitN2 main.defaultTargetLocker net.colon)
    with ["MySQL"; main.macro "dbURI"].
  cbv beta iota zeta. rewrite Hfactory. do 3 f_equal.
  unfold main.expandArgument. cbn [fold_left main.Name main.Value].
  rewrite Replace_macro. unfold main.macro.
  rewrite Replace_free_of by done. done.
Qed.

End RegistryProperties.

Section SetupProperties.

Variable R : Type.
Variable NewPluginRegistry : R.
Variable RegisterFactory : main.plugin → R → option target.error * R.

Lemma registered_app (fs1 fs2 : list (main.kind * main.plugin)) (r : R) :
  main.registered RegisterFactory (fs1 ++ fs2) r
  = main.registered RegisterFactory fs2 (main.registered RegisterFactory fs1 r).
Proof. apply fold_left_app. Qed.

Lemma all_registered_app (fs1 fs2 : list (main.kind * main.plugin)) (r : R) :
  main.all_registered RegisterFactory (fs1 ++ fs2) r
  ↔ main.all_registered RegisterFactory fs1 r
    ∧ main.all_registered RegisterFactory fs2
        (main.registered RegisterFactory fs1 r).
Proof.
  revert r. induction fs1 as [|f fs1 IH]; intros r; simpl; [tauto|].
  rewrite IH. tauto.
Qed.

Lemma register_all_result (k : main.kind) (fs : list main.plugin) (r : R) :
  main.setup_result RegisterFactory (map (pair k) fs) r
    (main.register_all R RegisterFactory k fs r).
Proof.
  unfold main.setup_result. revert r.
  induction fs as [|f fs IH]; intros r; simpl.
  { done. }
  destruct (RegisterFactory f r) as [[cause|] r'] eqn:Hf; simpl.
  - exists [], k, f, (map (pair k) fs), cause. by repeat split.
  - specialize (IH r').
    destruct (fst (main.register_all R RegisterFactory k fs r')) as [e|].
    + destruct IH as (before & k' & f' & after & cause & Hall & Hok & Hreg & ->).
      exists ((k, f) :: before), k', f', after, cause.
      split; [by rewrite Hall|]. split; [simpl; by rewrite Hf|].
      split; [|done]. unfold main.registered in *. simpl. by rewrite Hf.
    + destruct IH as [Hok Hsnd]. split; [done|]. rewrite Hsnd.
      unfold main.registered. simpl. done.
Qed.

Lemma setup_result_app (fs1 fs2 : list (main.kind * main.plugin)) (r : R)
    (res1 res2 : option main.setup_error * R) :
  main.setup_result RegisterFactory fs1 r res1 →
  main.setup_result RegisterFactory fs2 (snd res1) res2 →
  main.setup_result RegisterFactory (fs1 ++ fs2) r
    (match res1 with
     | (Some e, r1) => (Some e, r1)
     | (None, _) => res2
     end).
Proof.
  unfold main.setup_result. destruct res1 as [[e1|] r1]; simpl.
  - intros (before & k & f & after & cause & -> & Hok & Hreg & ->) _.
    exists before, k, f, (after ++ fs2), cause.
    rewrite <-app_assoc. by repeat split.
  - intros [Hok1 ->]. destruct (fst res2) as [e2|].
    + intros (before & k & f & after & cause & -> & Hok & Hreg & ->).
      exists (fs1 ++ before), k, f, after, cause.
      rewrite <-app_assoc, registered_app. repeat split; try done.
      by apply all_registered_app.
    + intros [Hok2 ->]. rewrite registered_app. split; [|done].
      by apply all_registered_app.
Qed.

(** X23. [setupPluginRegistry] registers the sixteen factories in one fixed
    order: target managers, target lockers, test steps, test fetchers,
    reporters, each group in the order of its list. It returns nil exactly
    when every registration succeeds, and then the registry holds all of
    them. Otherwise it stops at the first registration that fails: the
    factories before it are registered, none after it is tried, and the
    error carries the kind of the factory, the factory and the cause. *)
Theorem setup_plugin_registry :
  length main.registration_order = 16%nat
  ∧ match fst (main.setupPluginRegistry R NewPluginRegistry RegisterFactory) with
    | None =>
        main.all_registered RegisterFactory main.registration_order
          NewPluginRegistry
        ∧ snd (main.setupPluginRegistry R NewPluginRegistry RegisterFactory)
          = main.registered RegisterFactory main.registration_order
              NewPluginRegistry
    | Some e =>
        ∃ before k f after cause,
          main.registration_order = before ++ (k, f) :: after
          ∧ main.all_registered RegisterFactory before NewPluginRegistry
          ∧ RegisterFactory f
              (main.registered RegisterFactory before NewPluginRegistry)
            = (Some cause,
               snd (main.setupPluginRegistry R NewPluginRegistry RegisterFactory))
          ∧ e = main.ErrRegister k f cause
    end.
Proof.
  split; [done|].
  change (main.setup_result RegisterFactory main.registration_order
            NewPluginRegistry
            (main.setupPluginRegistry R NewPluginRegistry RegisterFactory)).
  unfold main.setupPluginRegistry, main.registration_order.
  pose proof (register_all_result main.TargetManager
                main.targetManagerFactories NewPluginRegistry) as H1.
  destruct (main.register_all R RegisterFactory main.TargetManager _ _)
    as [e1 r1] eqn:E1.
  pose proof (register_all_result main.TargetLocker
                main.targetLockerFactories r1) as H2.
  destruct (main.register_all R RegisterFactory main.TargetLocker _ _)
    as [e2 r2] eqn:E2.
  pose proof (register_all_result main.TestStep
                main.testStepFactories r2) as H3.
  destruct (main.register_all R RegisterFactory main.TestStep _ _)
    as [e3 r3] eqn:E3.
  pose proof (register_all_result main.TestFetcher
                main.testFetcherFactories r3) as H4.
  destruct (main.register_all R RegisterFactory main.TestFetcher _ _)
    as [e4 r4] eqn:E4.
  pose proof (register_all_result main.JobReporter
                main.reporterFactories r4) as H5.
  destruct (main.register_all R RegisterFactory main.JobReporter _ _)
    as [e5 r5] eqn:E5.
  pose proof (setup_result_app _ _ _ _ _ H4 H5) as H45.
  pose proof (setup_result_app _ _ _ _ _ H3 H45) as H345.
  pose proof (setup_result_app _ _ _ _ _ H2 H345) as H2345.
  pose proof (setup_result_app _ _ _ _ _ H1 H2345) as Hall.
  destruct e1, e2, e3, e4, e5; exact Hall.
Qed.

End SetupProperties.

(** ** The further properties on samples *)

(** A row without identifier ends the call, whatever follows it. *)
Lemma first_error_wins_witness :
  rows_loop net.ParseIP (params 1 2 [] false) init
    [web01; row EmptyString "db01.example.com" EmptyString EmptyString]
  = Return ErrEmptyHostID
  ∧ run greedy
      ([web01; row EmptyString "db01.example.com" EmptyString EmptyString]
       ++ [unnamed; ScanErr])
      (params 1 2 [] false) fresh
    = (Returned None (Some ErrEmptyHostID), fresh).
Proof.
  split; [reflexivity|].
  exact (first_error_wins net.ParseIP src0 greedy (params 1 2 [] false)
           [web01; row EmptyString "db01.example.com" EmptyString EmptyString]
           [unnamed; ScanErr] ErrEmptyHostID 7 60 fresh eq_refl).
Defined.

(** An address that does not parse is named in the error. *)
Lemma load_errors_witness :
  rows_loop net.ParseIP (params 1 2 [] false) init
    [web01; row "h9" EmptyString "999.1.1.1" EmptyString]
  = Return (ErrInvalidIPv4 "999.1.1.1")
  ∧ load_error [web01; row "h9" EmptyString "999.1.1.1" EmptyString]
      (ErrInvalidIPv4 "999.1.1.1")
  ∧ run greedy [web01; row "h9" EmptyString "999.1.1.1" EmptyString]
      (params 1 2 [] false) fresh
    = (Returned None (Some (ErrInvalidIPv4 "999.1.1.1")), fresh).
Proof.
  split; [reflexivity|].
  exact (load_errors net.ParseIP src0 greedy (params 1 2 [] false)
           [web01; row "h9" EmptyString "999.1.1.1" EmptyString]
           (ErrInvalidIPv4 "999.1.1.1") 7 60 fresh eq_refl).
Defined.

(** Three rows with data and one without: three hosts, in table order. *)
Lemma unfiltered_hosts_follow_rows_witness :
  map (fun p => target.ID (target.deref p))
    (hosts (loaded (params 1 2 [] false)
              [web01; row EmptyString EmptyString EmptyString EmptyString;
               db01; unnamed]))
  = ["h1"; "h2"; "h3"].
Proof.
  destruct (unfiltered_hosts_follow_rows net.ParseIP (params 1 2 [] false)
              [web01; row EmptyString EmptyString EmptyString EmptyString;
               db01; unnamed]
              (loaded (params 1 2 [] false)
                 [web01; row EmptyString EmptyString EmptyString EmptyString;
                  db01; unnamed])
              eq_refl eq_refl) as (ts & _ & _ & Hids & _).
  exact Hids.
Defined.

(** With the prefix [web], the only host left has a name that starts with
    it. *)
Lemma filtered_hosts_match_witness :
  Forall (fun q => passes_filter ["web"] (target.deref q))
    (hosts (loaded (params 1 2 ["web"] false) three_hosts)).
Proof.
  apply (filtered_hosts_match net.ParseIP (params 1 2 ["web"] false)
           three_hosts (loaded (params 1 2 ["web"] false) three_hosts)).
  - discriminate.
  - reflexivity.
Defined.

(** Every host of the sample table has an identifier. *)
Lemma loaded_targets_valid_witness :
  Forall (fun q => well_formed (target.deref q))
    (hosts (loaded (params 1 2 [] false) three_hosts)).
Proof.
  eapply Forall_impl.
  - exact (loaded_targets_valid net.ParseIP (params 1 2 [] false) three_hosts
             (loaded (params 1 2 [] false) three_hosts) eq_refl).
  - intros q [Hwf _]. exact Hwf.
Defined.

(** Without shuffling, [TryLock] gets the three hosts in table order and
    the limit two. *)
Lemma trylock_gets_all_candidates_witness :
  ∃ rest,
    calls (snd (run greedy three_hosts (params 1 2 [] false) fresh))
    = CallTryLock 7 60 (hosts (loaded (params 1 2 [] false) three_hosts)) 2
      :: rest.
Proof.
  destruct (trylock_gets_all_candidates net.ParseIP src0 greedy
              (params 1 2 [] false) (Table three_hosts) 7 60
              (loaded (params 1 2 [] false) three_hosts) fresh
              in_uint32_2 eq_refl)
    as (hs & rest & Hcalls & _ & Hsame & _).
  - vm_compute. discriminate.
  - exists rest. rewrite <-(Hsame eq_refl). exact Hcalls.
Defined.

(** A call that fails before the lock leaves the receiver alone. *)
Lemma failure_keeps_receiver_witness :
  tf_hosts (snd (run greedy [web01; db01] (params 3 3 [] false) fresh)) = None.
Proof.
  apply (failure_keeps_receiver net.ParseIP src0 greedy (Table [web01; db01])
           7 60 (OfAcquireParameters (params 3 3 [] false)) fresh
           (snd (run greedy [web01; db01] (params 3 3 [] false) fresh))
           (fst (run greedy [web01; db01] (params 3 3 [] false) fresh))).
  - reflexivity.
  - discriminate.
Defined.

(** Two hosts locked for a minimum of two. *)
Lemma enough_locked_succeeds_witness :
  fst (run (scripted {| grant := ["h1"; "h2"]; lock_err := None;
                        unlock_err := None |})
         three_hosts (params 2 3 [] false) fresh)
  = Returned (Some [host 0 "h1" "web01.example.com";
                    host 1 "h2" "db01.example.com"]) None.
Proof.
  unfold run. rewrite (enough_locked_succeeds net.ParseIP src0
             (scripted {| grant := ["h1"; "h2"]; lock_err := None;
                          unlock_err := None |})
             (params 2 3 [] false) (Table three_hosts) 7 60
             (loaded (params 2 3 [] false) three_hosts)
             (hosts (loaded (params 2 3 [] false) three_hosts))
             [host 0 "h1" "web01.example.com"; host 1 "h2" "db01.example.com"]
             fresh ["h1"; "h2"] tt in_uint32_2 eq_refl).
  - reflexivity.
  - vm_compute. discriminate.
  - reflexivity.
  - reflexivity.
  - reflexivity.
  - vm_compute. discriminate.
Defined.

(** The locker grants nothing for a minimum of two. *)
Lemma nothing_locked_no_unlock_witness :
  unlock_count
    (calls (snd (run (scripted {| grant := []; lock_err := None;
                                  unlock_err := None |})
                   three_hosts (params 2 3 [] false) fresh)))
  = 0%nat.
Proof.
  unfold run. rewrite (nothing_locked_no_unlock net.ParseIP src0
             (scripted {| grant := []; lock_err := None; unlock_err := None |})
             (params 2 3 [] false) (Table three_hosts) 7 60
             (loaded (params 2 3 [] false) three_hosts)
             (hosts (loaded (params 2 3 [] false) three_hosts))
             fresh [] tt in_uint32_2).
  - reflexivity.
  - reflexivity.
  - reflexivity.
  - vm_compute. discriminate.
  - reflexivity.
  - reflexivity.
  - reflexivity.
Defined.

(** The locker reports an identifier that no candidate has. *)
Lemma unknown_identifier_no_unlock_witness :
  fst (run (scripted {| grant := ["h1"; "h7"]; lock_err := None;
                        unlock_err := None |})
         three_hosts (params 1 3 [] false) fresh)
  = Returned None (Some ErrLockedNotFound).
Proof.
  unfold run. rewrite (unknown_identifier_no_unlock net.ParseIP src0
             (scripted {| grant := ["h1"; "h7"]; lock_err := None;
                          unlock_err := None |})
             (params 1 3 [] false) (Table three_hosts) 7 60
             (loaded (params 1 3 [] false) three_hosts)
             (hosts (loaded (params 1 3 [] false) three_hosts))
             fresh ["h1"; "h7"] tt eq_refl).
  - reflexivity.
  - vm_compute. discriminate.
  - reflexivity.
  - reflexivity.
  - reflexivity.
Defined.

(** Validated parameters are accepted by [Acquire]; release parameters are
    not. *)
Lemma validated_parameters_and_acquire_witness :
  ValidateAcquireParameters trim_ascii (decode_to (params 1 2 [" web "] false))
    "{}"
  = (Some (OfAcquireParameters (params 1 2 ["web"] false)), None)
  ∧ fst (run greedy three_hosts (params 1 2 ["web"] false) fresh)
    ≠ Returned None (Some (ErrExpects "string"))
  ∧ Acquire net.ParseIP src0 greedy (Table three_hosts) 7 60
      (OfOtherType ReleaseParametersType) fresh
    = (Returned None (Some (ErrExpects ReleaseParametersType)), fresh).
Proof.
  split; [reflexivity|]. split.
  - exact (proj1 (validated_parameters_and_acquire trim_ascii
                    (decode_to (params 1 2 [" web "] false))
                    (fun _ => None) net.ParseIP src0 greedy (Table three_hosts)
                    7 60 fresh "{}"
                    (OfAcquireParameters (params 1 2 ["web"] false)))
             eq_refl "string").
  - exact (proj2 (validated_parameters_and_acquire trim_ascii
                    (decode_to (params 1 2 [" web "] false))
                    (fun _ => None) net.ParseIP src0 greedy (Table three_hosts)
                    7 60 fresh "{}" (OfOtherType ReleaseParametersType))
             eq_refl).
Defined.

(** The network fails: the report is false, without error. *)
Lemma final_report_result_witness :
  postdone.FinalReport sample.marshal sample.unreachable
    (postdone.OfFinalParameters {| postdone.ApiURI := "http://api/done" |})
    sample.quiet
  = (postdone.Reported false (postdone.OfString EmptyString) None,
     snd (postdone.FinalReport sample.marshal sample.unreachable
            (postdone.OfFinalParameters
               {| postdone.ApiURI := "http://api/done" |})
            sample.quiet))
  ∧ @None target.error = None.
Proof.
  split; [reflexivity|].
  exact (proj1 (final_report_result sample.marshal sample.unreachable
                  (postdone.OfFinalParameters
                     {| postdone.ApiURI := "http://api/done" |})
                  sample.quiet _ false (postdone.OfString EmptyString) None
                  eq_refl)).
Defined.

(** The server answers 500: the report is true and the line logged is at
    the error level. *)
Lemma final_report_status_witness :
  ∃ w', postdone.FinalReport sample.marshal (sample.answers 500)
          (postdone.OfFinalParameters {| postdone.ApiURI := "http://api/done" |})
          sample.quiet
        = (postdone.Reported true (postdone.OfString EmptyString) None, w')
    ∧ postdone.lvl (postdone.status_line 500) = postdone.ErrorLevel.
Proof.
  destruct (final_report_status sample.marshal (sample.answers 500)
              {| postdone.ApiURI := "http://api/done" |} sample.quiet
              {| postdone.StatusCode := 500 |} eq_refl)
    as (w' & Hreport & _ & Hlevel).
  exists w'. split; [exact Hreport|]. apply Hlevel. discriminate.
Defined.

(** A URI that is refused is returned with the error and passed to
    [http.Post] all the same. *)
Lemma validated_final_report_witness :
  postdone.ValidateFinalParameters sample.unmarshal sample.parse_uri
    "ftp://api" sample.quiet
  = ((Some (postdone.OfFinalParameters {| postdone.ApiURI := "ftp://api" |}),
      Some "invalid URI for request"),
     postdone.write
       (postdone.Line postdone.ErrorLevel "ApiURI is not formatted right" None)
       sample.quiet)
  ∧ ∃ fp, sample.unmarshal "ftp://api" = inr fp
      ∧ postdone.posted
          (snd (postdone.FinalReport sample.marshal (sample.answers 200)
                  (postdone.OfFinalParameters
                     {| postdone.ApiURI := "ftp://api" |})
                  sample.quiet))
        = [postdone.request_for sample.marshal fp].
Proof.
  split; [reflexivity|].
  destruct (proj1 (validated_final_report sample.unmarshal sample.parse_uri
                     sample.marshal (sample.answers 200) "ftp://api"
                     sample.quiet _ sample.quiet
                     (postdone.OfFinalParameters
                        {| postdone.ApiURI := "ftp://api" |})
                     (Some "invalid URI for request"))
              eq_refl) as (fp & Hfp & _ & Hposted).
  exists fp. split; [exact Hfp|exact Hposted].
Defined.

(** An argument without a macro. *)
Lemma expand_without_percent_witness :
  main.expandArgument [sample.dbURI "100%dbURI%"] "/var/lock" = "/var/lock".
Proof.
  exact (expand_without_percent [sample.dbURI "100%dbURI%"] "/var/lock" eq_refl).
Defined.

(** The macro of the first flag. *)
Lemma expand_first_flag_witness :
  main.expandArgument
    [sample.dbURI main.defaultDBURI;
     {| main.Name := "targetLocker"; main.Value := main.defaultTargetLocker |}]
    "%dbURI%"
  = main.defaultDBURI.
Proof.
  exact (expand_first_flag (sample.dbURI main.defaultDBURI)
           [{| main.Name := "targetLocker";
               main.Value := main.defaultTargetLocker |}] eq_refl).
Defined.

(** The defaults of the two flags. *)
Lemma default_target_locker_witness :
  main.parseFactoryInfo string unit sample.lookup (fun _ => []) (fun f => f)
    [sample.dbURI main.defaultDBURI;
     {| main.Name := "targetLocker"; main.Value := main.defaultTargetLocker |}]
    tt main.defaultTargetLocker
  = main.Returns ("mysql.Factory", "MySQL", main.defaultDBURI).
Proof.
  exact (default_target_locker string unit sample.lookup (fun _ => [])
           (fun f => f) tt main.defaultDBURI main.defaultTargetLocker
           "mysql.Factory" eq_refl eq_refl).
Defined.
